(** * Krowno C bindings: byte accumulation and zlib helpers

    A shallow embedding of the buffer-handling functions of
    [src/c_bindings.c]:

    - [krowno_curl_write_callback]  (response-body accumulation),
    - [krowno_execute_command]      (subprocess output capture),
    - [krowno_deflate], [krowno_inflate] (single-shot zlib wrappers).

    Sizes are [size_t] values, modelled as [Z] with the 64-bit wrap-around
    written out.  Heap blocks are lists of cells; the allocator may refuse
    any request, which is modelled by an oracle in the [world].  zlib is an
    external library: its three entry points are a parameter ([zlib]). *)

From Stdlib Require Import ZArith Lia Strings.Byte String.
From stdpp Require Import base list.
From Equations Require Import Equations.

Local Open Scope Z_scope.

(** ** Machine sizes *)

Definition SIZE_BITS : Z := 64.
Definition SIZE_MAX : Z := 2 ^ SIZE_BITS - 1.

(** [size_t] arithmetic is modulo [SIZE_MAX + 1]. *)
Definition wrap (n : Z) : Z := n mod (SIZE_MAX + 1).

(** ** The environment: allocator outcomes and a log of library calls *)

(** Return codes of zlib ([zlib.h]). *)
Inductive zcode := Z_OK | Z_STREAM_ERROR | Z_DATA_ERROR | Z_MEM_ERROR | Z_BUF_ERROR.

Definition zcode_eqb (a b : zcode) : bool :=
  match a, b with
  | Z_OK, Z_OK | Z_STREAM_ERROR, Z_STREAM_ERROR | Z_DATA_ERROR, Z_DATA_ERROR
  | Z_MEM_ERROR, Z_MEM_ERROR | Z_BUF_ERROR, Z_BUF_ERROR => true
  | _, _ => false
  end.

Inductive event :=
| EvMalloc (n : Z) (ok : bool)
| EvRealloc (n : Z) (ok : bool)
| EvFree
| EvCompress2 (dest_len : Z) (level : Z) (r : zcode)
| EvUncompress (dest_len : Z) (r : zcode)
| EvPclose.

(** [heap_oracle] lists the outcomes of the coming allocation requests
    (an exhausted oracle grants every request); [trace] is the log, oldest
    event first. *)
Record world := World { heap_oracle : list bool; trace : list event }.

Definition w0 : world := World [] [].

(** A heap cell is a byte or indeterminate (fresh from the allocator); a
    block is the list of its cells; a pointer is NULL or designates a
    block. *)
Abbreviation cell := (option byte) (only parsing).
Abbreviation block := (list cell) (only parsing).
Abbreviation ptr := (option block) (only parsing).

(** ** A state monad with faults

    [Fault] stands for undefined behaviour (a read or write outside a
    block). *)
Inductive outcome (A : Type) :=
| Ok (a : A) (w : world)
| Fault.
Arguments Ok {A} a w.
Arguments Fault {A}.

Definition M (A : Type) := world -> outcome A.

Definition ret {A} (a : A) : M A := fun w => Ok a w.
Definition bind {A B} (m : M A) (k : A -> M B) : M B :=
  fun w => match m w with Ok a w' => k a w' | Fault => Fault end.
Definition fault {A} : M A := fun _ => Fault.

Notation "'let*' x ':=' m 'in' k" := (bind m (fun x => k))
  (at level 10, x name, m at level 100, k at level 200).

Definition log (e : event) : M unit :=
  fun w => Ok tt (World (heap_oracle w) (trace w ++ [e])).

Definition next_alloc : M bool :=
  fun w => match heap_oracle w with
           | [] => Ok true w
           | b :: o => Ok b (World o (trace w))
           end.

Definition fresh (n : Z) : block := replicate (Z.to_nat n) None.

Definition malloc (n : Z) : M ptr :=
  let* ok := next_alloc in
  let* _ := log (EvMalloc n ok) in
  ret (if ok : bool then Some (fresh n) else None).

(** [realloc] keeps the common prefix of the old block; when it fails the
    old block is left as it was and NULL is returned. *)
Definition resized (p : ptr) (n : Z) : block :=
  match p with
  | None => fresh n
  | Some b => take (Z.to_nat n) b ++ fresh (n - Z.of_nat (length b))
  end.

Definition realloc (p : ptr) (n : Z) : M ptr :=
  let* ok := next_alloc in
  let* _ := log (EvRealloc n ok) in
  ret (if ok : bool then Some (resized p n) else None).

(** [free(NULL)] does nothing. *)
Definition free (p : ptr) : M unit :=
  match p with
  | None => ret tt
  | Some _ => log EvFree
  end.

(** ** Block access *)

Definition zlen {A} (l : list A) : Z := Z.of_nat (length l).

(** [memcpy(dst + off, src, n)]. *)
Definition memcpy (dst : block) (off : Z) (src : list byte) (n : Z) : option block :=
  if (0 <=? off) && (0 <=? n) && (off + n <=? zlen dst) && (n <=? zlen src) then
    Some (take (Z.to_nat off) dst ++ (Some <$> take (Z.to_nat n) src)
            ++ drop (Z.to_nat (off + n)) dst)
  else None.

(** [dst[i] = b]. *)
Definition store (dst : block) (i : Z) (b : byte) : option block :=
  if (0 <=? i) && (i <? zlen dst) then Some (<[Z.to_nat i := Some b]> dst) else None.

(** The first [n] bytes of a block, when all of them are determinate. *)
Definition block_bytes (b : block) (n : Z) : option (list byte) :=
  if (0 <=? n) && (n <=? zlen b) then mapM id (take (Z.to_nat n) b) else None.

(** ** zlib *)

(** The entry points used by the bindings.  [compress2 dest_len source level]
    and [uncompress dest_len source] return the code together with the bytes
    written to the destination (their number is the updated [*destLen]). *)
Record zlib := Zlib {
  compressBound : Z -> Z;
  compress2 : Z -> list byte -> Z -> zcode * list byte;
  uncompress : Z -> list byte -> zcode * list byte
}.

(** The library writes its output at the start of the destination. *)
Definition filled (dst : block) (data : list byte) : block :=
  (Some <$> take (length dst) data) ++ drop (length data) dst.

(** An out-parameter: [None] when the caller passed NULL, otherwise the
    current content of the location. *)
Abbreviation outparam A := (option A) (only parsing).

(** [if (p) *p = v;] *)
Definition assign {A} (p : outparam A) (v : A) : outparam A :=
  match p with
  | Some _ => Some v
  | None => None
  end.

Section Compression.

Variable zl : zlib.

(** [int krowno_deflate(input, input_len, output, output_len, level)].
    The pair [input]/[input_len] is a buffer ([None]: NULL). The result is
    the return code and the two locations after the call. *)
Definition krowno_deflate (input : option (list byte))
    (output : outparam ptr) (output_len : outparam Z) (level : Z)
  : M (Z * outparam ptr * outparam Z) :=
  match input, output, output_len with
  | Some src, Some _, Some _ =>
    let input_len := zlen src in
    if input_len =? 0 then ret (-1, output, output_len) else
    let bound := compressBound zl input_len in
    let* out := malloc bound in
    match out with
    | None => ret (-1, output, output_len)
    | Some blk =>
      let '(zres, written) := compress2 zl bound src level in
      let* _ := log (EvCompress2 bound level zres) in
      if zcode_eqb zres Z_OK then
        ret (0, Some (Some (filled blk written)), Some (zlen written))
      else
        let* _ := free out in
        ret (-1, output, output_len)
    end
  | _, _, _ => ret (-1, output, output_len)
  end.

(** The retry loop of [krowno_inflate]; [n] counts the iterations left. *)
Fixpoint inflate_loop (n : nat) (src : list byte) (cap : Z) (out : ptr)
    (output : outparam ptr) (output_len : outparam Z)
  : M (Z * outparam ptr * outparam Z) :=
  match n with
  | O =>
    let* _ := free out in
    ret (-1, output, output_len)
  | S n' =>
    let* _ := free out in
    let* out := malloc cap in
    match out with
    | None => ret (-1, output, output_len)
    | Some blk =>
      let '(zres, written) := uncompress zl cap src in
      let* _ := log (EvUncompress cap zres) in
      if zcode_eqb zres Z_OK then
        ret (0, Some (Some (filled blk written)), Some (zlen written))
      else
        inflate_loop n' src (wrap (cap * 2)) (Some (filled blk written))
                     output output_len
    end
  end.

Definition initial_cap (input_len : Z) : Z :=
  let cap := wrap (input_len * 4) in
  if cap <? 1024 then 1024 else cap.

(** [int krowno_inflate(input, input_len, output, output_len)]. *)
Definition krowno_inflate (input : option (list byte))
    (output : outparam ptr) (output_len : outparam Z)
  : M (Z * outparam ptr * outparam Z) :=
  match input, output, output_len with
  | Some src, Some _, Some _ =>
    let input_len := zlen src in
    if input_len =? 0 then ret (-1, output, output_len) else
    inflate_loop 6 src (initial_cap input_len) None output output_len
  | _, _, _ => ret (-1, output, output_len)
  end.

End Compression.

(** ** Response-body accumulation (libcurl write callback) *)

Record krowno_http_response := Response {
  data : ptr;
  size : Z;
  status_code : Z
}.

(** [size_t krowno_curl_write_callback(contents, size, nmemb, response)].
    The result is the returned count and the response record after the
    call. *)
Definition krowno_curl_write_callback (contents : list byte) (size nmemb : Z)
    (response : krowno_http_response) : M (Z * krowno_http_response) :=
  let '(Response rdata rsize rstatus) := response in
  let realsize := wrap (size * nmemb) in
  let* p := realloc rdata (wrap (wrap (rsize + realsize) + 1)) in
  match p with
  | None => ret (0, response)
  | Some blk =>
    match memcpy blk rsize contents realsize with
    | None => fault
    | Some blk1 =>
      let rsize' := wrap (rsize + realsize) in
      match store blk1 rsize' x00 with
      | None => fault
      | Some blk2 => ret (realsize, Response (Some blk2) rsize' rstatus)
      end
    end
  end.

(** The response as [krowno_http_get] creates it ([calloc]). *)
Definition empty_response : krowno_http_response := Response None 0 0.

(** The transport hands the body over block by block ([size] is always 1)
    and gives up at the first call that does not return the block's length.
    The boolean tells whether every block was taken. *)
Fixpoint curl_deliver (chunks : list (list byte)) (response : krowno_http_response)
  : M (bool * krowno_http_response) :=
  match chunks with
  | [] => ret (true, response)
  | c :: cs =>
    let* nr := krowno_curl_write_callback c 1 (zlen c) response in
    if fst nr =? zlen c then curl_deliver cs (snd nr) else ret (false, snd nr)
  end.

(** ** Subprocess output capture *)

(** C strings: the bytes before the first NUL. *)
Fixpoint c_string (s : list byte) : list byte :=
  match s with
  | [] => []
  | c :: s' => if Byte.eqb c x00 then [] else c :: c_string s'
  end.

Definition has_nul (s : list byte) : bool := existsb (Byte.eqb x00) s.

Definition strlen (s : list byte) : Z := zlen (c_string s).

(** [strcpy(dst + off, src)] copies the string and its terminator. *)
Definition strcpy (dst : block) (off : Z) (src : list byte) : option block :=
  if has_nul src then memcpy dst off (c_string src ++ [x00]) (strlen src + 1)
  else None.

(** [fgets] reads at most [n] bytes and stops after a newline. *)
Fixpoint read_line (n : nat) (s : list byte) : list byte * list byte :=
  match n, s with
  | O, _ => ([], s)
  | _, [] => ([], [])
  | S n', c :: s' =>
    if Byte.eqb c x0a then ([c], s')
    else let '(l, r) := read_line n' s' in (c :: l, r)
  end.

(** [fgets(buffer, size, pipe)]: [None] at end of file, otherwise the
    buffer (terminated) and the rest of the stream. *)
Definition fgets (size : nat) (pipe : list byte) : option (list byte * list byte) :=
  match pipe with
  | [] => None
  | _ => let '(l, r) := read_line (size - 1) pipe in Some (l ++ [x00], r)
  end.

Record capture := Capture {
  result : block;
  result_size : Z;
  result_capacity : Z
}.

(** The body of the read loop of [krowno_execute_command]; [None] when
    [realloc] failed and the buffer was released. *)
Definition capture_append (buffer : list byte) (st : capture) : M (option capture) :=
  let len := strlen buffer in
  let* grown :=
    if wrap (result_size st + len) >=? result_capacity st then
      let cap' := wrap (result_capacity st * 2) in
      let* new_result := realloc (Some (result st)) cap' in
      match new_result with
      | None => let* _ := free (Some (result st)) in ret None
      | Some blk => ret (Some (Capture blk (result_size st) cap'))
      end
    else ret (Some st) in
  match grown with
  | None => ret None
  | Some st1 =>
    match strcpy (result st1) (result_size st1) buffer with
    | None => fault
    | Some blk =>
      ret (Some (Capture blk (wrap (result_size st1 + len)) (result_capacity st1)))
    end
  end.

Definition inspect {A} (a : A) : {b : A | a = b} := exist _ a eq_refl.

Equations capture_loop (pipe : list byte) (st : capture) (w : world)
  : outcome (option capture) by wf (length pipe) lt :=
  capture_loop pipe st w with inspect (fgets 256 pipe) => {
    | exist _ None _ => Ok (Some st) w
    | exist _ (Some (buffer, rest)) Hread with capture_append buffer st w => {
      | Ok (Some st') w' => capture_loop rest st' w'
      | Ok None w' => Ok None w'
      | Fault => Fault } }.
Next Obligation.
  (* each successful [fgets] consumes at least one byte *)
  match goal with H : fgets 256 pipe = Some _ |- _ => rename H into Hread end.
  assert (Hsplit : forall n s l r, read_line n s = (l, r) -> s = l ++ r).
  { induction n as [|n IH]; intros s l r.
    - destruct s; intros H; inversion H; reflexivity.
    - destruct s as [|c s]; [intros H; inversion H; reflexivity|].
      cbn [read_line]. destruct (Byte.eqb c x0a).
      + intros H; inversion H; reflexivity.
      + destruct (read_line n s) as [l' r'] eqn:E.
        intros H; inversion H; subst. cbn [app]. f_equal. apply IH, E. }
  unfold fgets in Hread. destruct pipe as [|c s]; [congruence|].
  change (256 - 1)%nat with (S 254) in Hread.
  destruct (read_line (S 254) (c :: s)) as [l r] eqn:E.
  inversion Hread; subst.
  assert (Hl : l <> []).
  { revert E. generalize 254%nat. intros n. cbn [read_line].
    destruct (Byte.eqb c x0a).
    - intros E; inversion E; subst; discriminate.
    - destruct (read_line n s). intros E; inversion E; subst; discriminate. }
  apply Hsplit in E. rewrite E, length_app.
  destruct l; [congruence | cbn [length]; lia].
Qed.

(** What [popen] gives: the bytes the command will write and the status
    [pclose] will report. *)
Record process := Process { stdout_bytes : list byte; wait_status : Z }.

Definition WEXITSTATUS (status : Z) : Z := Z.shiftr (Z.land status 65280) 8.

Section Capture.

Variable popen : string -> option process.

(** [int krowno_execute_command(command, output, output_len)]. *)
Definition krowno_execute_command (command : option string)
    (output : outparam ptr) (output_len : outparam Z)
  : M (Z * outparam ptr * outparam Z) :=
  match command with
  | None => ret (-1, output, output_len)
  | Some cmd =>
    match popen cmd with
    | None => ret (-1, output, output_len)
    | Some pipe =>
      let* first := malloc 1024 in
      match first with
      | None =>
        let* _ := log EvPclose in
        ret (-1, output, output_len)
      | Some blk =>
        let* r := capture_loop (stdout_bytes pipe) (Capture blk 0 1024) in
        let* _ := log EvPclose in
        match r with
        | None => ret (-1, output, output_len)
        | Some st =>
          ret (WEXITSTATUS (wait_status pipe),
               assign output (Some (result st)),
               assign output_len (result_size st))
        end
      end
    end
  end.

End Capture.

(** * Vocabulary of the properties *)

(** ** Reading the log *)

(** Every coming allocation request is granted. *)
Definition granting (w : world) : bool := forallb id (heap_oracle w).

(** The sizes passed to [malloc], and the [uncompress] calls with their
    destination capacity and outcome. *)
Fixpoint mallocs (tr : list event) : list Z :=
  match tr with
  | [] => []
  | EvMalloc n _ :: t => n :: mallocs t
  | _ :: t => mallocs t
  end.

Fixpoint attempts (tr : list event) : list (Z * zcode) :=
  match tr with
  | [] => []
  | EvUncompress c z :: t => (c, z) :: attempts t
  | _ :: t => attempts t
  end.

(** The capacities of [n] successive attempts starting from [cap]. *)
Fixpoint caps (n : nat) (cap : Z) : list Z :=
  match n with
  | O => []
  | S n' => cap :: caps n' (wrap (cap * 2))
  end.

(** ** What is expected of the codec *)

(** [src] is a well-formed stream holding [decoded]: [uncompress] delivers
    it when the destination is large enough and reports a short buffer
    otherwise. *)
Definition expands_to (zl : zlib) (src decoded : list byte) : Prop :=
  forall cap,
    if zlen decoded <=? cap then uncompress zl cap src = (Z_OK, decoded)
    else fst (uncompress zl cap src) = Z_BUF_ERROR.

(** [src] is rejected as malformed whatever the capacity. *)
Definition malformed (zl : zlib) (src : list byte) : Prop :=
  forall cap, fst (uncompress zl cap src) <> Z_OK /\
              fst (uncompress zl cap src) <> Z_BUF_ERROR.

Definition supported_level (level : Z) : Prop := -1 <= level <= 9.

(** The stream [compress2] produces when given [compressBound] bytes. *)
Definition deflated (zl : zlib) (src : list byte) (level : Z) : list byte :=
  snd (compress2 zl (compressBound zl (zlen src)) src level).

(** Compression of a non-empty input at a supported level succeeds within
    the bound, and the stream expands to the input (the library's own
    working memory is taken to be available). *)
Definition zlib_contract (zl : zlib) : Prop :=
  forall src level, src <> [] -> supported_level level ->
    fst (compress2 zl (compressBound zl (zlen src)) src level) = Z_OK /\
    deflated zl src level <> [] /\
    zlen (deflated zl src level) <= compressBound zl (zlen src) /\
    expands_to zl (deflated zl src level) src.

(** A caller that compresses and then expands what it was given. *)
Definition roundtrip (zl : zlib) (src : list byte) (level : Z) : M (option (list byte)) :=
  let* r := krowno_deflate zl (Some src) (Some None) (Some 0) level in
  match r with
  | (0, Some (Some blk), Some n) =>
    match block_bytes blk n with
    | None => fault
    | Some c =>
      let* r2 := krowno_inflate zl (Some c) (Some None) (Some 0) in
      match r2 with
      | (0, Some (Some blk2), Some m) => ret (block_bytes blk2 m)
      | _ => ret None
      end
    end
  | _ => ret None
  end.

(** The value and the log of a finished computation. *)
Definition result_of {A} (o : outcome A) : option A :=
  match o with
  | Ok a _ => Some a
  | Fault => None
  end.

Definition events_of {A} (o : outcome A) : list event :=
  match o with
  | Ok _ w => trace w
  | Fault => []
  end.

(** ** The accumulators *)

(** The coming request is granted. *)
Definition next_granted (w : world) : bool := hd true (heap_oracle w).

(** The block starts with the bytes [l]. *)
Definition prefix_is (blk : block) (l : list byte) : Prop :=
  take (length l) blk = Some <$> l.

(** The response holds the bytes [l]. *)
Definition holds (r : krowno_http_response) (l : list byte) : Prop :=
  size r = zlen l /\
  match data r with
  | Some blk => prefix_is blk l
  | None => l = []
  end.

(** The block is one cell longer than the data and that cell is NUL. *)
Definition nul_terminated (r : krowno_http_response) : Prop :=
  exists blk, data r = Some blk /\ zlen blk = size r + 1 /\
    blk !! Z.to_nat (size r) = Some (Some x00).

(** The buffer is a block of [result_capacity] cells that starts with the
    [result_size] bytes [l] and has room left for a terminator. *)
Definition captured (st : capture) (l : list byte) : Prop :=
  zlen (result st) = result_capacity st /\
  result_size st = zlen l /\
  zlen l < result_capacity st /\
  1024 <= result_capacity st <= SIZE_MAX /\
  prefix_is (result st) l.

(** A [realloc] that was granted. *)
Definition granted_realloc (e : event) : Prop := exists n, e = EvRealloc n true.

(** An allocation request that was refused. *)
Definition refused (e : event) : bool :=
  match e with
  | EvMalloc _ false | EvRealloc _ false => true
  | _ => false
  end.

(** The two ways [krowno_execute_command] ends once the pipe is open: the
    text was captured, or an allocation was refused. *)
Definition capture_success (pipe : process) (o : outparam ptr) (ol : outparam Z)
    (r : Z * outparam ptr * outparam Z) (evs : list event) : Prop :=
  exists text st evs0,
    r = (WEXITSTATUS (wait_status pipe), assign o (Some (result st)),
         assign ol (zlen text)) /\
    captured st text /\
    (Forall (fun b => b <> x00) (stdout_bytes pipe) -> text = stdout_bytes pipe) /\
    evs = EvMalloc 1024 true :: evs0 ++ [EvPclose] /\
    Forall granted_realloc evs0.

Definition capture_failure (o : outparam ptr) (ol : outparam Z)
    (r : Z * outparam ptr * outparam Z) (evs : list event) : Prop :=
  r = (-1, o, ol) /\
  (evs = [EvMalloc 1024 false; EvPclose] \/
   exists evs0 n, evs = EvMalloc 1024 true :: evs0 ++ [EvRealloc n false; EvFree; EvPclose]).

(** The bytes a caller reads from the out-parameters of
    [krowno_execute_command]. *)
Definition output_bytes (r : Z * outparam ptr * outparam Z) : option (list byte) :=
  match r with
  | (_, Some (Some blk), Some n) => block_bytes blk n
  | _ => None
  end.

(** The body accumulated in a response. *)
Definition response_bytes (r : krowno_http_response) : option (list byte) :=
  match data r with
  | Some blk => block_bytes blk (size r)
  | None => if size r =? 0 then Some [] else None
  end.

(** The allocated size of the body buffer. *)
Definition capacity_of (r : krowno_http_response) : Z :=
  match data r with
  | Some blk => zlen blk
  | None => 0
  end.

(** * A reference codec

    zlib is not part of the repository.  [RunLength] is a small codec with
    the same interface, used to instantiate the results below: a stream is a
    sequence of records [hi; lo; v] standing for [256 * hi + lo] copies of
    [v], with a count of at least one. *)
Module RunLength.

Definition MAX_RUN : Z := 65535.

Fixpoint runs (l : list byte) : list (Z * byte) :=
  match l with
  | [] => []
  | x :: l' =>
    match runs l' with
    | (n, y) :: rs =>
      if Byte.eqb x y && (n <? MAX_RUN) then (n + 1, y) :: rs
      else (1, x) :: (n, y) :: rs
    | [] => [(1, x)]
    end
  end.

Definition byte_of_Z (n : Z) : byte := default x00 (Byte.of_N (Z.to_N n)).
Definition Z_of_byte (b : byte) : Z := Z.of_N (Byte.to_N b).

Definition encode_run (r : Z * byte) : list byte :=
  [byte_of_Z (fst r / 256); byte_of_Z (fst r mod 256); snd r].

Definition encode (l : list byte) : list byte := flat_map encode_run (runs l).

Definition expand (rs : list (Z * byte)) : list byte :=
  flat_map (fun r => replicate (Z.to_nat (fst r)) (snd r)) rs.

Fixpoint decode (s : list byte) : option (list byte) :=
  match s with
  | [] => Some []
  | hi :: lo :: v :: s' =>
    let n := 256 * Z_of_byte hi + Z_of_byte lo in
    if n =? 0 then None
    else match decode s' with
         | Some l => Some (replicate (Z.to_nat n) v ++ l)
         | None => None
         end
  | _ => None
  end.

Definition codec : zlib := {|
  compressBound := fun n => 3 * n;
  compress2 := fun dest_len source level =>
    if (level <? -1) || (9 <? level) then (Z_STREAM_ERROR, [])
    else let c := encode source in
         if zlen c <=? dest_len then (Z_OK, c) else (Z_BUF_ERROR, []);
  uncompress := fun dest_len source =>
    match decode source with
    | None => (Z_DATA_ERROR, [])
    | Some l =>
      if zlen l <=? dest_len then (Z_OK, l)
      else (Z_BUF_ERROR, take (Z.to_nat dest_len) l)
    end
|}.

(** Two streams: 204800 zero bytes in four records, and four bytes that
    are not a whole number of records. *)
Definition oversized : list byte :=
  [x20; x03; x00; xff; xff; x00; xff; xff; x00; xff; xff; x00].

Definition corrupt : list byte := [xff; xff; xff; xff].

Definition run_ok (r : Z * byte) : Prop := 1 <= fst r <= MAX_RUN.

End RunLength.

(** Sample states: a capture buffer of 1024 cells holding 1000 bytes, a
    chunk of 30 bytes, and a response holding 10 bytes. *)
Module Samples.

Definition text : list byte := replicate 1000 "a"%byte.

Definition buffer : list byte := replicate 30 "b"%byte ++ [x00].

Definition st : capture :=
  Capture ((Some <$> text) ++ replicate 24 None) 1000 1024.

Definition body : block := (Some <$> replicate 10 "a"%byte) ++ [Some x00].

Definition response : krowno_http_response := Response (Some body) 10 200.

Definition chunk : list byte := replicate 5 "b"%byte.

(** Commands: one writing 1100 bytes on a single line, one writing a line
    with a NUL byte in it, one writing two lines of text. *)
Definition long_output : process := Process (replicate 1100 "a"%byte) 0.

Definition binary_output : process := Process ["a"%byte; x00; "b"%byte; x0a] 0.

Definition text_output : process :=
  Process (list_byte_of_string "hello" ++ [x0a] ++ list_byte_of_string "world" ++ [x0a]) 0.

Definition popen_gives (p : process) : string -> option process := fun _ => Some p.

End Samples.

(** * Other functions of the bindings *)

(** ** [krowno_free_buffer], [krowno_free_command_output] *)

(** [if (ptr) free(ptr);] *)
Definition krowno_free_buffer (p : ptr) : M unit :=
  match p with
  | Some _ => free p
  | None => ret tt
  end.

Definition krowno_free_command_output (output : ptr) : M unit :=
  match output with
  | Some _ => free output
  | None => ret tt
  end.

(** Blocks handed out by [malloc] and not yet given to [free]. *)
Fixpoint live_blocks (tr : list event) : Z :=
  match tr with
  | [] => 0
  | EvMalloc _ true :: t => 1 + live_blocks t
  | EvFree :: t => live_blocks t - 1
  | _ :: t => live_blocks t
  end.

(** Callers that start from a NULL pointer, make the call and release
    whatever the pointer holds afterwards. *)
Definition compress_and_release (zl : zlib) (input : option (list byte)) (level : Z)
  : M Z :=
  let* r := krowno_deflate zl input (Some None) (Some 0) level in
  let* _ := match snd (fst r) with
            | Some p => krowno_free_buffer p
            | None => ret tt
            end in
  ret (fst (fst r)).

Definition expand_and_release (zl : zlib) (input : option (list byte)) : M Z :=
  let* r := krowno_inflate zl input (Some None) (Some 0) in
  let* _ := match snd (fst r) with
            | Some p => krowno_free_buffer p
            | None => ret tt
            end in
  ret (fst (fst r)).

Definition capture_and_release (popen : string -> option process)
    (command : option string) : M Z :=
  let* r := krowno_execute_command popen command (Some None) (Some 0) in
  let* _ := match snd (fst r) with
            | Some p => krowno_free_command_output p
            | None => ret tt
            end in
  ret (fst (fst r)).

(** ** [krowno_secure_zero] (the variant without libsodium) *)

(** [while (len--) *p++ = 0;]  [None] stands for a write outside the
    block. *)
Fixpoint zero_loop (len : nat) (blk : block) (p : Z) : option block :=
  match len with
  | O => Some blk
  | S len' =>
    match store blk p x00 with
    | None => None
    | Some blk' => zero_loop len' blk' (p + 1)
    end
  end.

Definition krowno_secure_zero (ptr : block) (len : Z) : option block :=
  zero_loop (Z.to_nat len) ptr 0.

(** ** [krowno_get_username] *)

(** The C string stored in a block: the bytes before the first NUL, when
    they are all determinate and the NUL is there. *)
Fixpoint read_c_string (blk : block) : option (list byte) :=
  match blk with
  | [] => None
  | None :: _ => None
  | Some c :: rest =>
    if Byte.eqb c x00 then Some []
    else match read_c_string rest with
         | Some s => Some (c :: s)
         | None => None
         end
  end.

Section Username.

(** The environment: the value of a variable, without its terminator. *)
Variable getenv : string -> option (list byte).

(** [int krowno_get_username(char *username, size_t len)]; the result is
    the return code and the buffer after the call, [None] standing for a
    write outside the buffer. *)
Definition krowno_get_username (username : block) (len : Z) : option (Z * block) :=
  let user :=
    match getenv "USER" with
    | Some u => Some u
    | None => getenv "LOGNAME"
    end in
  match user with
  | None => Some (-1, username)
  | Some u =>
    let user_len := strlen (u ++ [x00]) in
    if user_len >=? len then Some (-1, username)
    else match strcpy username 0 (u ++ [x00]) with
         | None => None
         | Some blk => Some (0, blk)
         end
  end.

End Username.

(** ** [krowno_mkdir_recursive] *)

(** What [mkdir] reports: success, failure with [EEXIST], failure with
    another [errno]. *)
Inductive mkdir_result := MkdirOk | MkdirExists | MkdirError.

(** [mkdir(...) != 0 && errno != EEXIST] *)
Definition mkdir_failed (r : mkdir_result) : bool :=
  match r with
  | MkdirError => true
  | _ => false
  end.

Definition slash : byte := "/"%byte.

(** [strchr(s, c)] on a C string: the offset of the first [c]. *)
Fixpoint strchr (s : list byte) (c : byte) : option nat :=
  match s with
  | [] => None
  | x :: s' =>
    if Byte.eqb x c then Some 0%nat
    else if Byte.eqb x x00 then None
    else match strchr s' c with
         | Some k => Some (S k)
         | None => None
         end
  end.

(** [strdup]: room for the string and its terminator, then the copy. *)
Definition strdup (s : list byte) : M (option (list byte)) :=
  let* p := malloc (strlen s + 1) in
  ret (match p with
       | Some _ => Some (c_string s ++ [x00])
       | None => None
       end).

Section Mkdir.

(** The file system is whatever [mkdir] acts on. *)
Context {fs : Type}.
Variable mkdir : list byte -> Z -> fs -> mkdir_result * fs.

(** The loop [while ((p = strchr(p, '/')))] of [krowno_mkdir_recursive]:
    [p] is an offset in [path_copy]; the result is [ret], the buffer as the
    loop leaves it and the file system. *)
Equations mkdir_loop (path_copy : list byte) (p : nat) (mode : Z) (s : fs)
  : Z * list byte * fs by wf (length path_copy - p)%nat lt :=
  mkdir_loop path_copy p mode s with inspect (strchr (drop p path_copy) slash) => {
    | exist _ None _ => (0, path_copy, s)
    | exist _ (Some k) Hfound
        with mkdir (c_string (<[(p + k)%nat := x00]> path_copy)) mode s => {
      | (r, s') with mkdir_failed r => {
        | true => (-1, <[(p + k)%nat := x00]> path_copy, s')
        | false =>
          mkdir_loop (<[(p + k)%nat := slash]> (<[(p + k)%nat := x00]> path_copy))
                     (S (p + k)) mode s' } } }.
Next Obligation.
  (* the slash found lies inside the buffer *)
  assert (Hlt : forall l j, strchr l slash = Some j -> (j < length l)%nat).
  { induction l as [|x l IH]; intros j; cbn [strchr]; [discriminate|].
    destruct (Byte.eqb x slash); [intros H; inversion H; cbn [length]; lia|].
    destruct (Byte.eqb x x00); [discriminate|].
    destruct (strchr l slash) as [k'|] eqn:E; [|discriminate].
    intros H; inversion H; subst. specialize (IH k' eq_refl). cbn [length]. lia. }
  match goal with H : strchr _ _ = Some _ |- _ => apply Hlt in H; rename H into Hk end.
  rewrite length_drop in Hk. rewrite !length_insert. lia.
Qed.

(** [int krowno_mkdir_recursive(const char *path, mode_t mode)]. *)
Definition krowno_mkdir_recursive (path : option (list byte)) (mode : Z) (s : fs)
  : M (Z * fs) :=
  match path with
  | None => ret (-1, s)
  | Some str =>
    let* copy := strdup str in
    match copy with
    | None => ret (-1, s)
    | Some path_copy =>
      let p := match path_copy with
               | c :: _ => if Byte.eqb c slash then 1%nat else 0%nat
               | [] => 0%nat
               end in
      let '(ret0, path_copy', s1) := mkdir_loop path_copy p mode s in
      let '(ret1, s2) :=
        if ret0 =? 0 then
          let '(r, s2) := mkdir (c_string path_copy') mode s1 in
          if mkdir_failed r then (-1, s2) else (ret0, s2)
        else (ret0, s1) in
      let* _ := free (Some (Some <$> path_copy')) in
      ret (ret1, s2)
    end
  end.

(** The plan the loop carries out, said directly: call [mkdir] on each
    of [targets] in turn and stop at the first failure other than
    [EEXIST]. *)
Fixpoint mkdir_each (targets : list (list byte)) (mode : Z) (s : fs) : Z * fs :=
  match targets with
  | [] => (0, s)
  | t :: ts =>
    let '(r, s') := mkdir t mode s in
    if mkdir_failed r then (-1, s') else mkdir_each ts mode s'
  end.

End Mkdir.

(** The offsets, counted from [i], of the slashes of [s]. *)
Fixpoint slashes_from (i : nat) (s : list byte) : list nat :=
  match s with
  | [] => []
  | c :: s' =>
    if Byte.eqb c slash then i :: slashes_from (S i) s' else slashes_from (S i) s'
  end.

(** The directories [krowno_mkdir_recursive] asks for: the part of the
    path before each slash but a leading one, shortest first, and then the
    path itself. *)
Definition mkdir_targets (path : list byte) : list (list byte) :=
  ((fun j => take j path) <$> slashes_from 1 (tail path)) ++ [path].


(** ** More on the capture buffer *)

(** A NUL follows the bytes captured. *)
Definition terminated (st : capture) : Prop :=
  result st !! Z.to_nat (result_size st) = Some (Some x00).

(** The buffer has its first size, or at most twice the bytes captured. *)
Definition snug (st : capture) : Prop :=
  result_capacity st = 1024 \/ result_capacity st <= 2 * result_size st.

(** A file system for examples: the list of the directories made so far;
    an empty name is refused. *)
Module DirList.

Fixpoint bytes_eqb (a b : list byte) : bool :=
  match a, b with
  | [], [] => true
  | x :: a', y :: b' => Byte.eqb x y && bytes_eqb a' b'
  | _, _ => false
  end.

Definition mkdir (path : list byte) (mode : Z) (dirs : list (list byte))
  : mkdir_result * list (list byte) :=
  match path with
  | [] => (MkdirError, dirs)
  | _ => if existsb (bytes_eqb path) dirs then (MkdirExists, dirs)
         else (MkdirOk, dirs ++ [path])
  end.


End DirList.

(** * Properties *)

(** ** Reading the log *)

Lemma mallocs_app t1 t2 : mallocs (t1 ++ t2) = mallocs t1 ++ mallocs t2.
Proof.
  induction t1 as [|e t1 IH]; [reflexivity|].
  destruct e; cbn [app mallocs]; rewrite IH; reflexivity.
Qed.

Lemma attempts_app t1 t2 : attempts (t1 ++ t2) = attempts t1 ++ attempts t2.
Proof.
  induction t1 as [|e t1 IH]; [reflexivity|].
  destruct e; cbn [app attempts]; rewrite IH; reflexivity.
Qed.

Lemma wrap_small n : 0 <= n <= SIZE_MAX -> wrap n = n.
Proof. intros H. unfold wrap. apply Z.mod_small. lia. Qed.

Lemma caps_length n cap : length (caps n cap) = n.
Proof. revert cap. induction n as [|n IH]; intros cap; cbn; [|rewrite IH]; reflexivity. Qed.

Lemma caps_lookup_succ n cap i c :
  caps n cap !! i = Some c -> (S i < n)%nat ->
  caps n cap !! S i = Some (wrap (c * 2)).
Proof.
  revert cap i. induction n as [|n IH]; intros cap i; [intros _ H; lia|].
  destruct i as [|i]; cbn [caps].
  - intros [= <-] Hn. destruct n as [|n]; [lia|]. reflexivity.
  - intros Hc Hn. change ((cap :: caps n (wrap (cap * 2))) !! S (S i))
      with (caps n (wrap (cap * 2)) !! S i).
    apply IH; [exact Hc | lia].
Qed.

(** Without overflow the capacities are [cap * 2 ^ i]. *)
Lemma caps_lookup_exact n cap i c :
  0 <= cap -> cap * 2 ^ Z.of_nat (n - 1) <= SIZE_MAX ->
  caps n cap !! i = Some c -> c = cap * 2 ^ Z.of_nat i.
Proof.
  revert cap i. induction n as [|n IH]; intros cap i Hc Hmax; [discriminate|].
  destruct i as [|i]; cbn [caps].
  - intros [= <-]. change (2 ^ Z.of_nat 0) with 1. lia.
  - intros Hi. change (caps n (wrap (cap * 2)) !! i = Some c) in Hi.
    destruct n as [|n]; [discriminate|].
    replace (S (S n) - 1)%nat with (S n) in Hmax by lia.
    rewrite Nat2Z.inj_succ, Z.pow_succ_r in Hmax by lia.
    assert (Hw : wrap (cap * 2) = cap * 2).
    { apply wrap_small. split; [lia|].
      assert (1 <= 2 ^ Z.of_nat n) by (apply Z.pow_le_mono_r with (b := 0); lia).
      nia. }
    rewrite Hw in Hi. apply IH in Hi.
    + rewrite Nat2Z.inj_succ, Z.pow_succ_r by lia. lia.
    + lia.
    + replace (S n - 1)%nat with n by lia. lia.
Qed.

Lemma initial_cap_exact n :
  0 <= n -> 4 * n <= SIZE_MAX -> initial_cap n = Z.max (4 * n) 1024.
Proof.
  intros H0 H4. unfold initial_cap. rewrite wrap_small by lia.
  destruct (Z.ltb_spec (n * 4) 1024); lia.
Qed.

(** ** Stepping through the monad *)

Ltac step :=
  unfold malloc, realloc, free, log, next_alloc, bind, ret; cbn [heap_oracle trace].

Lemma granting_tail b o tr : granting (World (b :: o) tr) = true ->
  b = true /\ granting (World o tr) = true.
Proof.
  unfold granting. cbn. intros H. apply andb_true_iff in H as [? ?].
  split; [destruct b; auto | assumption].
Qed.

(** [malloc] under a granting allocator. *)
Lemma malloc_granted n w :
  granting w = true ->
  exists w', malloc n w = Ok (Some (fresh n)) w' /\
    trace w' = trace w ++ [EvMalloc n true] /\ granting w' = true.
Proof.
  destruct w as [[|b o] tr]; intros Hg; step.
  - eexists; split; [reflexivity|]. split; [reflexivity | exact Hg].
  - apply granting_tail in Hg as [-> Hg].
    eexists; split; [reflexivity|]. split; [reflexivity | exact Hg].
Qed.

Lemma realloc_next p n w :
  next_granted w = true ->
  realloc p n w
  = Ok (Some (resized p n)) (World (tail (heap_oracle w)) (trace w ++ [EvRealloc n true])).
Proof.
  destruct w as [[|b o] tr]; unfold next_granted; cbn [hd heap_oracle]; intros Hb; step.
  - reflexivity.
  - subst b. reflexivity.
Qed.

Lemma granting_next w : granting w = true -> next_granted w = true.
Proof.
  destruct w as [[|b o] tr]; [reflexivity|]. intros H.
  now apply granting_tail in H as [-> _].
Qed.

Lemma granting_after w w' :
  granting w = true -> heap_oracle w' = tail (heap_oracle w) -> granting w' = true.
Proof.
  destruct w as [[|b o] tr]; unfold granting; cbn [heap_oracle tail]; intros H ->.
  - reflexivity.
  - cbn in H. now apply andb_true_iff in H as [_ H].
Qed.

Lemma free_run p w :
  exists w', free p w = Ok tt w' /\
    trace w' = trace w ++ (if p is Some _ then [EvFree] else []) /\
    heap_oracle w' = heap_oracle w.
Proof.
  destruct p; step; eexists; split; try reflexivity; split; try reflexivity.
  cbn. now rewrite app_nil_r.
Qed.

Lemma malloc_run n w :
  exists ok w', malloc n w = Ok (if ok : bool then Some (fresh n) else None) w' /\
    trace w' = trace w ++ [EvMalloc n ok].
Proof.
  destruct w as [[|b o] tr]; step.
  - exists true. eexists. split; reflexivity.
  - exists b. eexists. split; reflexivity.
Qed.

(** ** The retry loop of [krowno_inflate] *)

Section InflateLoop.

Variable zl : zlib.

Lemma mallocs_free (p : ptr) : mallocs (if p is Some _ then [EvFree] else []) = [].
Proof. destruct p; reflexivity. Qed.

Lemma attempts_free (p : ptr) : attempts (if p is Some _ then [EvFree] else []) = [].
Proof. destruct p; reflexivity. Qed.

(** One iteration, spelled out. *)
Lemma inflate_loop_S n src cap out o ol w :
  inflate_loop zl (S n) src cap out o ol w =
  match free out w with
  | Ok _ w1 =>
    match malloc cap w1 with
    | Ok None w2 => Ok (-1, o, ol) w2
    | Ok (Some blk) w2 =>
      let z := fst (uncompress zl cap src) in
      let written := snd (uncompress zl cap src) in
      let w3 := World (heap_oracle w2) (trace w2 ++ [EvUncompress cap z]) in
      if zcode_eqb z Z_OK then
        Ok (0, Some (Some (filled blk written)), Some (zlen written)) w3
      else inflate_loop zl n src (wrap (cap * 2)) (Some (filled blk written)) o ol w3
    | Fault => Fault
    end
  | Fault => Fault
  end.
Proof.
  cbn [inflate_loop]. unfold bind at 1. destruct (free out w) as [[] w1|]; [|reflexivity].
  unfold bind at 1. destruct (malloc cap w1) as [[blk|] w2|]; try reflexivity.
  destruct (uncompress zl cap src) as [z written]. cbn [fst snd].
  unfold bind, log. destruct (zcode_eqb z Z_OK); reflexivity.
Qed.

(** The loop always returns, with -1 and the out-parameters untouched or
    with 0; it asks for the capacities of [caps] in order, and goes on to
    the next attempt after every failed one. *)
Lemma inflate_loop_shape n : forall src cap out o ol w,
  exists r w' evs, inflate_loop zl n src cap out o ol w = Ok r w' /\
    trace w' = trace w ++ evs /\
    mallocs evs `prefix_of` caps n cap /\
    (fst <$> attempts evs) `prefix_of` caps n cap /\
    (n <> 0%nat -> mallocs evs <> []) /\
    (forall i c z, attempts evs !! i = Some (c, z) -> z <> Z_OK ->
       (S i < n)%nat -> (S i < length (mallocs evs))%nat) /\
    (r = (-1, o, ol) \/ exists blk len, r = (0, Some (Some blk), Some len)).
Proof.
  induction n as [|n IH]; intros src cap out o ol w.
  - cbn [inflate_loop]. unfold bind.
    destruct (free_run out w) as (w1 & -> & Ht & _).
    exists (-1, o, ol), w1, (if out is Some _ then [EvFree] else []).
    rewrite mallocs_free, attempts_free.
    repeat split; try assumption; try apply prefix_nil; try congruence.
    + intros i c z Hi. discriminate.
    + now left.
  - rewrite inflate_loop_S.
    destruct (free_run out w) as (w1 & -> & Ht1 & _).
    destruct (malloc_run cap w1) as (ok & w2 & -> & Ht2).
    set (fr := if out is Some _ then [EvFree] else []) in *.
    assert (Hfm : mallocs fr = []) by apply mallocs_free.
    assert (Hfa : attempts fr = []) by apply attempts_free.
    destruct ok.
    2:{ exists (-1, o, ol), w2, (fr ++ [EvMalloc cap false]).
        rewrite Ht2, Ht1, <- app_assoc, mallocs_app, attempts_app, Hfm, Hfa.
        cbn [app mallocs attempts fmap list_fmap caps].
        repeat split; try apply prefix_nil; try congruence.
        - apply prefix_cons, prefix_nil.
        - intros i c z Hi. discriminate.
        - now left. }
    cbv zeta. destruct (uncompress zl cap src) as [z written]. cbn [fst snd].
    destruct (zcode_eqb z Z_OK) eqn:Ez.
    + exists (0, Some (Some (filled (fresh cap) written)), Some (zlen written)).
      eexists. exists (fr ++ [EvMalloc cap true; EvUncompress cap z]).
      cbn [trace]. rewrite Ht2, Ht1, <- !app_assoc, mallocs_app, attempts_app, Hfm, Hfa.
      cbn [app mallocs attempts fmap list_fmap caps fst].
      repeat split; try congruence.
      * apply prefix_cons, prefix_nil.
      * apply prefix_cons, prefix_nil.
      * intros [|i] c z' Hi Hz; [|discriminate].
        cbn in Hi. inversion Hi; subst. destruct z'; cbn in Ez; congruence.
      * right. eauto.
    + match goal with |- context [inflate_loop zl n src ?c ?p o ol ?w'] =>
        destruct (IH src c p o ol w') as (r & w4 & evs & -> & Ht4 & Hm & Ha & Hne & Hnext & Hr)
      end.
      exists r, w4, (fr ++ [EvMalloc cap true; EvUncompress cap z] ++ evs).
      cbn [trace] in Ht4.
      rewrite Ht4, Ht2, Ht1, <- !app_assoc, !mallocs_app, !attempts_app, Hfm, Hfa.
      cbn [app mallocs attempts fmap list_fmap caps fst].
      repeat split; try congruence.
      * now apply prefix_cons.
      * now apply prefix_cons.
      * intros [|i] c z' Hi Hz Hlt; cbn [length].
        -- assert (mallocs evs <> []) by (apply Hne; lia).
           destruct (mallocs evs); [congruence | cbn [length]; lia].
        -- cbn in Hi. specialize (Hnext i c z' Hi Hz). lia.
Qed.

End InflateLoop.

(** ** Block contents *)

Lemma mapM_id_Some (l : list byte) : mapM id (Some <$> l) = Some l.
Proof.
  induction l as [|x l IH]; [reflexivity|].
  cbn. cbn in IH. rewrite IH. reflexivity.
Qed.

Lemma length_fresh n : length (fresh n) = Z.to_nat n.
Proof. apply length_replicate. Qed.

Lemma length_filled blk (l : list byte) :
  (length l <= length blk)%nat -> length (filled blk l) = length blk.
Proof.
  intros H. unfold filled.
  rewrite length_app, length_fmap, length_take, length_drop. lia.
Qed.

Lemma block_bytes_filled blk (l : list byte) :
  (length l <= length blk)%nat -> block_bytes (filled blk l) (zlen l) = Some l.
Proof.
  intros H. unfold block_bytes, zlen. rewrite length_filled by exact H.
  destruct (Z.leb_spec 0 (Z.of_nat (length l))); [|lia].
  destruct (Z.leb_spec (Z.of_nat (length l)) (Z.of_nat (length blk))); [|lia].
  cbn [andb]. rewrite Nat2Z.id. unfold filled.
  rewrite (take_ge l) by exact H.
  rewrite take_app_length' by now rewrite length_fmap.
  apply mapM_id_Some.
Qed.

Section Codec.

Variable zl : zlib.

(** Every attempt fails: the loop makes all of them and gives up. *)
Lemma inflate_loop_exhaust n : forall src cap out o ol w,
  granting w = true ->
  (forall c, c ∈ caps n cap -> fst (uncompress zl c src) <> Z_OK) ->
  exists w' evs, inflate_loop zl n src cap out o ol w = Ok (-1, o, ol) w' /\
    trace w' = trace w ++ evs /\
    mallocs evs = caps n cap /\
    attempts evs = (fun c => (c, fst (uncompress zl c src))) <$> caps n cap /\
    granting w' = true.
Proof.
  induction n as [|n IH]; intros src cap out o ol w Hg Hfail.
  - cbn [inflate_loop]. unfold bind.
    destruct (free_run out w) as (w1 & -> & Ht & Ho).
    exists w1, (if out is Some _ then [EvFree] else []).
    rewrite mallocs_free, attempts_free. repeat split; try assumption.
    unfold granting in *. now rewrite Ho.
  - rewrite inflate_loop_S.
    destruct (free_run out w) as (w1 & -> & Ht1 & Ho1).
    assert (Hg1 : granting w1 = true) by (unfold granting in *; now rewrite Ho1).
    destruct (malloc_granted cap w1 Hg1) as (w2 & -> & Ht2 & Hg2).
    cbv zeta.
    assert (Hz : fst (uncompress zl cap src) <> Z_OK)
      by (apply Hfail; cbn [caps]; left).
    destruct (zcode_eqb (fst (uncompress zl cap src)) Z_OK) eqn:Ez.
    { destruct (fst (uncompress zl cap src)); cbn in Ez; congruence. }
    match goal with |- context [inflate_loop zl n src ?c ?p o ol ?w'] =>
      destruct (IH src c p o ol w') as (w4 & evs & -> & Ht4 & Hm & Ha & Hg4)
    end.
    { exact Hg2. }
    { intros c Hc. apply Hfail. cbn [caps]. now right. }
    exists w4. eexists. split; [reflexivity|].
    cbn [trace] in Ht4. rewrite Ht4, Ht2, Ht1, <- !app_assoc.
    split; [reflexivity|].
    rewrite !mallocs_app, !attempts_app, mallocs_free, attempts_free.
    cbn [app mallocs attempts caps fmap list_fmap]. rewrite Hm, Ha.
    repeat split; assumption.
Qed.

(** The stream is well formed and its content fits one of the capacities:
    the loop delivers the content. *)
Lemma inflate_loop_success n : forall src decoded cap out o ol w,
  granting w = true -> expands_to zl src decoded ->
  0 <= cap -> cap * 2 ^ Z.of_nat n <= SIZE_MAX ->
  zlen decoded <= cap * 2 ^ Z.of_nat n ->
  exists blk w', inflate_loop zl (S n) src cap out o ol w
                 = Ok (0, Some (Some blk), Some (zlen decoded)) w' /\
    block_bytes blk (zlen decoded) = Some decoded /\ granting w' = true.
Proof.
  induction n as [|n IH]; intros src decoded cap out o ol w Hg Hsrc Hcap Hmax Hfit;
    rewrite inflate_loop_S;
    destruct (free_run out w) as (w1 & -> & Ht1 & Ho1);
    (assert (Hg1 : granting w1 = true) by (unfold granting in *; now rewrite Ho1));
    destruct (malloc_granted cap w1 Hg1) as (w2 & -> & Ht2 & Hg2);
    cbv zeta; pose proof (Hsrc cap) as Hu.
  - change (2 ^ Z.of_nat 0) with 1 in *.
    destruct (Z.leb_spec (zlen decoded) cap); [|lia].
    rewrite Hu. cbn [fst snd zcode_eqb].
    eexists _, _. split; [reflexivity|]. split; [|exact Hg2].
    apply block_bytes_filled. rewrite length_fresh. unfold zlen in *. lia.
  - destruct (Z.leb_spec (zlen decoded) cap).
    + rewrite Hu. cbn [fst snd zcode_eqb].
      eexists _, _. split; [reflexivity|]. split; [|exact Hg2].
      apply block_bytes_filled. rewrite length_fresh. unfold zlen in *. lia.
    + rewrite Hu. cbn [zcode_eqb].
      rewrite Nat2Z.inj_succ, Z.pow_succ_r in Hmax, Hfit by lia.
      assert (1 <= 2 ^ Z.of_nat n) by (apply Z.pow_le_mono_r with (b := 0); lia).
      apply IH; try assumption.
      * rewrite wrap_small by nia. lia.
      * rewrite wrap_small by nia. lia.
      * rewrite wrap_small by nia. lia.
Qed.

End Codec.

(** ** [krowno_deflate] and [krowno_inflate] as a whole *)

Section Wrappers.

Variable zl : zlib.

Lemma zlen_nonempty {A} (l : list A) : l <> [] -> (zlen l =? 0) = false.
Proof. destruct l; [congruence|]. intros _. reflexivity. Qed.

Lemma krowno_inflate_nonempty src o ol w :
  src <> [] ->
  krowno_inflate zl (Some src) (Some o) (Some ol) w
  = inflate_loop zl 6 src (initial_cap (zlen src)) None (Some o) (Some ol) w.
Proof. intros H. unfold krowno_inflate. now rewrite zlen_nonempty. Qed.

(** Both wrappers return -1 with the out-parameters as they were, or 0. *)
Lemma krowno_inflate_shape input o ol w :
  exists r w', krowno_inflate zl input o ol w = Ok r w' /\
    (r = (-1, o, ol) \/ exists blk len, r = (0, Some (Some blk), Some len)).
Proof.
  unfold krowno_inflate.
  destruct input as [src|], o as [o|], ol as [ol|];
    try (eexists _, _; split; [reflexivity | now left]).
  destruct (zlen src =? 0); [eexists _, _; split; [reflexivity | now left]|].
  destruct (inflate_loop_shape zl 6 src (initial_cap (zlen src)) None (Some o) (Some ol) w)
    as (r & w' & evs & Hrun & _ & _ & _ & _ & _ & Hr).
  eauto.
Qed.

Lemma krowno_deflate_shape input o ol level w :
  exists r w', krowno_deflate zl input o ol level w = Ok r w' /\
    (r = (-1, o, ol) \/ exists blk len, r = (0, Some (Some blk), Some len)).
Proof.
  unfold krowno_deflate.
  destruct input as [src|], o as [o|], ol as [ol|];
    try (eexists _, _; split; [reflexivity | now left]).
  destruct (zlen src =? 0); [eexists _, _; split; [reflexivity | now left]|].
  unfold bind at 1.
  destruct (malloc_run (compressBound zl (zlen src)) w) as (ok & w1 & -> & _).
  destruct ok; [|eexists _, _; split; [reflexivity | now left]].
  destruct (compress2 zl (compressBound zl (zlen src)) src level) as [z written].
  step. destruct (zcode_eqb z Z_OK); eexists _, _; (split; [reflexivity|]);
    [right; eauto | now left].
Qed.

Lemma krowno_deflate_granted src level o ol w :
  zlib_contract zl -> src <> [] -> supported_level level -> granting w = true ->
  exists blk w',
    krowno_deflate zl (Some src) (Some o) (Some ol) level w
    = Ok (0, Some (Some blk), Some (zlen (deflated zl src level))) w' /\
    block_bytes blk (zlen (deflated zl src level)) = Some (deflated zl src level) /\
    granting w' = true.
Proof.
  intros Hzl Hne Hlevel Hg.
  destruct (Hzl src level Hne Hlevel) as (Hok & _ & Hfit & _).
  unfold deflated in *. unfold krowno_deflate. rewrite zlen_nonempty by exact Hne.
  unfold bind at 1.
  destruct (malloc_granted (compressBound zl (zlen src)) w Hg) as (w1 & -> & _ & Hg1).
  destruct (compress2 zl (compressBound zl (zlen src)) src level) as [z c].
  cbn [fst snd] in *. subst z. step. cbn [zcode_eqb].
  eexists _, _. split; [reflexivity|]. split; [|exact Hg1].
  apply block_bytes_filled. rewrite length_fresh. unfold zlen in *. lia.
Qed.

End Wrappers.

Lemma caps_6 c :
  0 <= c -> 32 * c <= SIZE_MAX ->
  caps 6 c = [c; 2 * c; 4 * c; 8 * c; 16 * c; 32 * c].
Proof.
  intros H0 Hmax. cbn [caps].
  rewrite (wrap_small (c * 2)) by lia.
  rewrite (wrap_small (c * 2 * 2)) by lia.
  rewrite (wrap_small (c * 2 * 2 * 2)) by lia.
  rewrite (wrap_small (c * 2 * 2 * 2 * 2)) by lia.
  rewrite (wrap_small (c * 2 * 2 * 2 * 2 * 2)) by lia.
  repeat (match goal with
          | |- ?x :: _ = ?y :: _ => replace x with y by lia; f_equal
          end).
Qed.

Lemma zlen_nonneg {A} (l : list A) : 0 <= zlen l.
Proof. unfold zlen. lia. Qed.

(** ** The reference codec honours the contract *)

Module RunLengthFacts.

Import RunLength.

Lemma runs_ok l : Forall run_ok (runs l).
Proof.
  induction l as [|x l IH]; cbn [runs]; [constructor|].
  destruct (runs l) as [|[n y] rs].
  - repeat constructor; unfold MAX_RUN; cbn; lia.
  - inversion IH as [|? ? Hr Hrs]; subst. unfold run_ok in Hr. cbn [fst] in Hr.
    destruct (Byte.eqb x y && (n <? MAX_RUN)) eqn:E.
    + apply andb_true_iff in E as [_ E]. apply Z.ltb_lt in E.
      constructor; [unfold run_ok; cbn [fst]; lia | assumption].
    + constructor; [unfold run_ok, MAX_RUN; cbn [fst]; lia |].
      constructor; assumption.
Qed.

Lemma expand_runs l : expand (runs l) = l.
Proof.
  induction l as [|x l IH]; cbn [runs]; [reflexivity|].
  pose proof (runs_ok l) as Hok.
  unfold expand in *. destruct (runs l) as [|[n y] rs].
  - cbn [flat_map fst snd] in *. change (Z.to_nat 1) with 1%nat.
    cbn [replicate app]. congruence.
  - inversion Hok as [|? ? Hr _]; subst. unfold run_ok in Hr. cbn [fst] in Hr.
    destruct (Byte.eqb x y && (n <? MAX_RUN)) eqn:E.
    + apply andb_true_iff in E as [E _]. apply Byte.byte_dec_bl in E. subst y.
      cbn [flat_map fst snd] in *.
      replace (Z.to_nat (n + 1)) with (S (Z.to_nat n)) by lia.
      cbn [replicate app]. congruence.
    + cbn [flat_map fst snd] in *. change (Z.to_nat 1) with 1%nat.
      cbn [replicate app]. congruence.
Qed.

Lemma Z_of_byte_of_Z n : 0 <= n < 256 -> Z_of_byte (byte_of_Z n) = n.
Proof.
  intros Hn. unfold byte_of_Z, Z_of_byte.
  destruct (Byte.of_N (Z.to_N n)) as [b|] eqn:E.
  - apply Byte.to_of_N in E. simpl. lia.
  - apply Byte.of_N_None_iff in E. lia.
Qed.

Lemma decode_encode_runs rs :
  Forall run_ok rs -> decode (flat_map encode_run rs) = Some (expand rs).
Proof.
  induction 1 as [|[n v] rs Hr _ IH]; [reflexivity|].
  unfold run_ok, MAX_RUN in Hr. cbn [fst] in Hr.
  cbn [flat_map encode_run app fst snd decode].
  rewrite !Z_of_byte_of_Z.
  - rewrite <- Z.div_mod by lia.
    destruct (Z.eqb_spec n 0); [lia|]. rewrite IH. reflexivity.
  - apply Z.mod_pos_bound. lia.
  - split; [apply Z.div_pos; lia | apply Z.div_lt_upper_bound; lia].
Qed.

Lemma decode_encode l : decode (encode l) = Some l.
Proof.
  unfold encode. rewrite decode_encode_runs by apply runs_ok.
  now rewrite expand_runs.
Qed.

Lemma length_runs l : (length (runs l) <= length l)%nat.
Proof.
  induction l as [|x l IH]; cbn [runs length]; [lia|].
  destruct (runs l) as [|[n y] rs]; [cbn; lia|].
  destruct (Byte.eqb x y && (n <? MAX_RUN)); cbn [length] in *; lia.
Qed.

Lemma length_encode l : (length (encode l) = 3 * length (runs l))%nat.
Proof.
  unfold encode. induction (runs l) as [|r rs IH]; [reflexivity|].
  cbn [flat_map encode_run length app]. rewrite IH. lia.
Qed.

Lemma encode_nonempty l : l <> [] -> encode l <> [].
Proof.
  intros Hl He. apply (f_equal decode) in He. rewrite decode_encode in He.
  cbn in He. congruence.
Qed.

Lemma decode_expands s l : decode s = Some l -> expands_to codec s l.
Proof.
  intros H cap. cbn [uncompress codec]. rewrite H.
  destruct (zlen l <=? cap); reflexivity.
Qed.

Lemma decode_malformed s : decode s = None -> malformed codec s.
Proof. intros H cap. cbn [uncompress codec]. rewrite H. split; discriminate. Qed.

Lemma compress2_encode src level :
  supported_level level ->
  compress2 codec (compressBound codec (zlen src)) src level = (Z_OK, encode src).
Proof.
  intros [Hlo Hhi]. cbn [compress2 compressBound codec].
  destruct (Z.ltb_spec level (-1)); [lia|].
  destruct (Z.ltb_spec 9 level); [lia|]. cbn [orb].
  pose proof (length_encode src). pose proof (length_runs src).
  destruct (Z.leb_spec (zlen (encode src)) (3 * zlen src)); [reflexivity|].
  unfold zlen in *. lia.
Qed.

Lemma oversized_expands :
  expands_to codec oversized (replicate (Z.to_nat (200 * 1024)) x00).
Proof.
  replace oversized with (encode (replicate (Z.to_nat (200 * 1024)) x00))
    by (vm_compute; reflexivity).
  apply decode_expands, decode_encode.
Qed.

Lemma codec_contract : zlib_contract codec.
Proof.
  intros src level Hne Hlevel. unfold deflated.
  rewrite compress2_encode by exact Hlevel. cbn [fst snd].
  split; [reflexivity|]. split; [now apply encode_nonempty|]. split.
  - pose proof (length_encode src). pose proof (length_runs src).
    cbn [compressBound codec]. unfold zlen. lia.
  - apply decode_expands, decode_encode.
Qed.

End RunLengthFacts.

(** * Compression and expansion *)

(** C1 (amended): for a codec that honours [zlib_contract], an allocator
    that grants every request, a non-empty input and a supported level,
    compressing with [krowno_deflate] and expanding the result with
    [krowno_inflate] yields the input exactly, provided the input is no
    longer than the largest capacity tried, 32 times
    [max (4 * compressed length) 1024]. *)
Theorem roundtrip_within_ceiling (zl : zlib) (src : list byte) (level : Z) (w : world) :
  zlib_contract zl -> src <> [] -> supported_level level -> granting w = true ->
  32 * Z.max (4 * zlen (deflated zl src level)) 1024 <= SIZE_MAX ->
  zlen src <= 32 * Z.max (4 * zlen (deflated zl src level)) 1024 ->
  exists w', roundtrip zl src level w = Ok (Some src) w'.
Proof.
  intros Hzl Hne Hlevel Hg Hmax Hfit.
  destruct (Hzl src level Hne Hlevel) as (_ & Hcne & _ & Hexp).
  set (c := deflated zl src level) in *.
  pose proof (zlen_nonneg c) as Hc0.
  assert (H4 : 4 * zlen c <= SIZE_MAX) by lia.
  unfold roundtrip, bind.
  destruct (krowno_deflate_granted zl src level None 0 w Hzl Hne Hlevel Hg)
    as (blk & w1 & Hd & Hb & Hg1).
  rewrite Hd. cbv beta iota. rewrite Hb. fold c. rewrite krowno_inflate_nonempty by exact Hcne.
  rewrite <- initial_cap_exact in Hmax, Hfit by lia.
  destruct (inflate_loop_success zl 5 c src (initial_cap (zlen c)) None
              (Some None) (Some 0) w1 Hg1 Hexp) as (blk2 & w2 & -> & Hb2 & _).
  - rewrite initial_cap_exact by lia. lia.
  - change (2 ^ Z.of_nat 5) with 32. lia.
  - change (2 ^ Z.of_nat 5) with 32. lia.
  - exists w2. unfold ret. now rewrite Hb2.
Qed.

Lemma roundtrip_within_ceiling_witness :
  exists w', roundtrip RunLength.codec (replicate 10 "A"%byte) 6 w0
             = Ok (Some (replicate 10 "A"%byte)) w'.
Proof.
  apply (roundtrip_within_ceiling RunLength.codec (replicate 10 "A"%byte) 6 w0).
  - apply RunLengthFacts.codec_contract.
  - discriminate.
  - unfold supported_level. lia.
  - reflexivity.
  - vm_compute. discriminate.
  - vm_compute. discriminate.
Defined.

(** C1, as stated, fails: 32769 zero bytes compress to a three-byte stream,
    the six capacities tried are 1024 ... 32768, and the expansion is
    refused. *)
Lemma roundtrip_past_ceiling :
  zlib_contract RunLength.codec /\ supported_level 6 /\
  result_of (roundtrip RunLength.codec (replicate (Z.to_nat 32769) x00) 6 w0)
  = Some None.
Proof.
  split; [apply RunLengthFacts.codec_contract|].
  split; [unfold supported_level; lia|].
  vm_compute. reflexivity.
Qed.

(** The same for any codec: an input longer than the last capacity is never
    recovered. *)
Lemma roundtrip_beyond_ceiling (zl : zlib) (src : list byte) (level : Z) (w : world) :
  zlib_contract zl -> src <> [] -> supported_level level -> granting w = true ->
  32 * Z.max (4 * zlen (deflated zl src level)) 1024 <= SIZE_MAX ->
  32 * Z.max (4 * zlen (deflated zl src level)) 1024 < zlen src ->
  exists w', roundtrip zl src level w = Ok None w'.
Proof.
  intros Hzl Hne Hlevel Hg Hmax Hbig.
  destruct (Hzl src level Hne Hlevel) as (_ & Hcne & _ & Hexp).
  set (c := deflated zl src level) in *.
  pose proof (zlen_nonneg c) as Hc0.
  assert (H4 : 4 * zlen c <= SIZE_MAX) by lia.
  unfold roundtrip, bind.
  destruct (krowno_deflate_granted zl src level None 0 w Hzl Hne Hlevel Hg)
    as (blk & w1 & Hd & Hb & Hg1).
  rewrite Hd. cbv beta iota. rewrite Hb. fold c. rewrite krowno_inflate_nonempty by exact Hcne.
  rewrite <- initial_cap_exact in Hmax, Hbig by lia.
  assert (H0 : 0 <= initial_cap (zlen c)) by (rewrite initial_cap_exact; lia).
  destruct (inflate_loop_exhaust zl 6 c (initial_cap (zlen c)) None
              (Some None) (Some 0) w1 Hg1) as (w2 & evs & -> & _).
  - intros cap Hcap. rewrite caps_6 in Hcap by lia.
    pose proof (Hexp cap) as Hu.
    destruct (Z.leb_spec (zlen src) cap); [|rewrite Hu; discriminate].
    repeat (apply elem_of_cons in Hcap as [->|Hcap]; [lia|]).
    inversion Hcap.
  - exists w2. reflexivity.
Qed.

(** C2 (amended): when the routine rejects a non-empty input as malformed
    at every capacity and the allocator grants every request,
    [krowno_inflate] does not stop at the first attempt: it makes all six
    attempts, at the capacities [caps 6 (initial_cap n)], and returns -1
    with the out-parameters unwritten. *)
Theorem inflate_malformed_retries (zl : zlib) (src : list byte)
    (o : ptr) (ol : Z) (w : world) :
  src <> [] -> malformed zl src -> granting w = true ->
  exists w' evs,
    krowno_inflate zl (Some src) (Some o) (Some ol) w = Ok (-1, Some o, Some ol) w' /\
    trace w' = trace w ++ evs /\
    mallocs evs = caps 6 (initial_cap (zlen src)) /\
    attempts evs
    = (fun c => (c, fst (uncompress zl c src))) <$> caps 6 (initial_cap (zlen src)) /\
    length (attempts evs) = 6%nat.
Proof.
  intros Hne Hbad Hg. rewrite krowno_inflate_nonempty by exact Hne.
  destruct (inflate_loop_exhaust zl 6 src (initial_cap (zlen src)) None
              (Some o) (Some ol) w Hg) as (w' & evs & Hrun & Ht & Hm & Ha & _).
  - intros c _. apply Hbad.
  - exists w', evs. repeat split; try assumption.
    rewrite Ha, length_fmap. apply caps_length.
Qed.

Lemma inflate_malformed_retries_witness :
  exists w' evs,
    krowno_inflate RunLength.codec (Some RunLength.corrupt) (Some None) (Some 0) w0
    = Ok (-1, Some None, Some 0) w' /\
    trace w' = trace w0 ++ evs /\
    mallocs evs = caps 6 (initial_cap (zlen RunLength.corrupt)) /\
    attempts evs
    = (fun c => (c, fst (uncompress RunLength.codec c RunLength.corrupt)))
        <$> caps 6 (initial_cap (zlen RunLength.corrupt)) /\
    length (attempts evs) = 6%nat.
Proof.
  apply (inflate_malformed_retries RunLength.codec RunLength.corrupt None 0 w0).
  - discriminate.
  - apply RunLengthFacts.decode_malformed. reflexivity.
  - reflexivity.
Defined.

(** C2, as stated, fails: on a stream that is rejected as malformed the
    routine is called six times, with the capacity doubled in between. *)
Lemma inflate_malformed_six_attempts :
  malformed RunLength.codec RunLength.corrupt /\
  attempts (events_of (krowno_inflate RunLength.codec (Some RunLength.corrupt)
                         (Some None) (Some 0) w0))
  = [(1024, Z_DATA_ERROR); (2048, Z_DATA_ERROR); (4096, Z_DATA_ERROR);
     (8192, Z_DATA_ERROR); (16384, Z_DATA_ERROR); (32768, Z_DATA_ERROR)].
Proof.
  split; [apply RunLengthFacts.decode_malformed; reflexivity|].
  vm_compute. reflexivity.
Qed.

(** C6 (amended): when a non-empty stream is well formed, its content is
    longer than 32 times the initial capacity and the allocator grants every
    request, [krowno_inflate] makes exactly six attempts, each reported as a
    short buffer, and returns -1 with the out-parameters unwritten; -1 is
    the code of every failure of [krowno_inflate]. *)
Theorem inflate_ceiling (zl : zlib) (src decoded : list byte)
    (o : ptr) (ol : Z) (w : world) :
  src <> [] -> expands_to zl src decoded -> granting w = true ->
  32 * Z.max (4 * zlen src) 1024 <= SIZE_MAX ->
  32 * Z.max (4 * zlen src) 1024 < zlen decoded ->
  exists w' evs,
    krowno_inflate zl (Some src) (Some o) (Some ol) w = Ok (-1, Some o, Some ol) w' /\
    trace w' = trace w ++ evs /\
    let c0 := Z.max (4 * zlen src) 1024 in
    attempts evs
    = (fun c => (c, Z_BUF_ERROR)) <$> [c0; 2 * c0; 4 * c0; 8 * c0; 16 * c0; 32 * c0].
Proof.
  intros Hne Hexp Hg Hmax Hbig. rewrite krowno_inflate_nonempty by exact Hne.
  pose proof (zlen_nonneg src) as H0.
  rewrite initial_cap_exact by lia.
  set (c0 := Z.max (4 * zlen src) 1024) in *.
  assert (Hshort : forall c, c ∈ caps 6 c0 -> fst (uncompress zl c src) = Z_BUF_ERROR).
  { intros c Hc. rewrite caps_6 in Hc by lia. pose proof (Hexp c) as Hu.
    destruct (Z.leb_spec (zlen decoded) c); [|exact Hu].
    repeat (apply elem_of_cons in Hc as [->|Hc]; [lia|]). inversion Hc. }
  destruct (inflate_loop_exhaust zl 6 src c0 None (Some o) (Some ol) w Hg)
    as (w' & evs & Hrun & Ht & _ & Ha & _).
  - intros c Hc. rewrite (Hshort c Hc). discriminate.
  - exists w', evs. repeat split; try assumption.
    rewrite Ha. rewrite caps_6 in * by lia. cbn [fmap list_fmap].
    rewrite !Hshort by (repeat constructor). reflexivity.
Qed.

Lemma inflate_ceiling_witness :
  exists w' evs,
    krowno_inflate RunLength.codec (Some RunLength.oversized) (Some None) (Some 0) w0
    = Ok (-1, Some None, Some 0) w' /\
    trace w' = trace w0 ++ evs /\
    let c0 := Z.max (4 * zlen RunLength.oversized) 1024 in
    attempts evs
    = (fun c => (c, Z_BUF_ERROR)) <$> [c0; 2 * c0; 4 * c0; 8 * c0; 16 * c0; 32 * c0].
Proof.
  apply (inflate_ceiling RunLength.codec RunLength.oversized
           (replicate (Z.to_nat (200 * 1024)) x00) None 0 w0).
  - discriminate.
  - apply RunLengthFacts.oversized_expands.
  - reflexivity.
  - vm_compute. discriminate.
  - vm_compute. reflexivity.
Defined.

(** C6, as stated, fails: a well-formed stream holding 200 times the
    initial capacity and a malformed stream are answered alike, with -1;
    there is no separate error for the exhausted ceiling. *)
Lemma inflate_ceiling_same_code :
  expands_to RunLength.codec RunLength.oversized (replicate (Z.to_nat (200 * 1024)) x00) /\
  malformed RunLength.codec RunLength.corrupt /\
  result_of (krowno_inflate RunLength.codec (Some RunLength.oversized)
               (Some None) (Some 0) w0)
  = result_of (krowno_inflate RunLength.codec (Some RunLength.corrupt)
                 (Some None) (Some 0) w0).
Proof.
  split; [apply RunLengthFacts.oversized_expands|].
  split; [apply RunLengthFacts.decode_malformed; reflexivity|].
  vm_compute. reflexivity.
Qed.

(** C7: for a non-empty input of length [n] (with [32 * max (4 n) 1024]
    representable as a [size_t]), the first capacity asked for is
    [max (4 n) 1024], and whenever attempt [i <= 4] at capacity [c] ends
    with a short buffer, attempt [i + 1] asks for exactly [2 * c]. *)
Theorem inflate_capacities (zl : zlib) (src : list byte) (o : ptr) (ol : Z) (w : world) :
  src <> [] -> 32 * Z.max (4 * zlen src) 1024 <= SIZE_MAX ->
  exists r w' evs,
    krowno_inflate zl (Some src) (Some o) (Some ol) w = Ok r w' /\
    trace w' = trace w ++ evs /\
    mallocs evs !! 0%nat = Some (Z.max (4 * zlen src) 1024) /\
    forall (i : nat) (c : Z),
      (i <= 4)%nat -> attempts evs !! i = Some (c, Z_BUF_ERROR) ->
      mallocs evs !! i = Some c /\ mallocs evs !! S i = Some (2 * c).
Proof.
  intros Hne Hmax. rewrite krowno_inflate_nonempty by exact Hne.
  pose proof (zlen_nonneg src) as H0.
  rewrite initial_cap_exact by lia.
  set (c0 := Z.max (4 * zlen src) 1024) in *.
  destruct (inflate_loop_shape zl 6 src c0 None (Some o) (Some ol) w)
    as (r & w' & evs & Hrun & Ht & Hm & Ha & Hne6 & Hnext & _).
  exists r, w', evs. split; [exact Hrun|]. split; [exact Ht|]. split.
  - assert (Hm0 : mallocs evs <> []) by (apply Hne6; lia).
    destruct (mallocs evs) as [|m ms] eqn:E; [congruence|].
    apply (prefix_lookup_Some _ _ 0%nat m) in Hm; [|reflexivity].
    cbn in Hm. cbn. congruence.
  - intros i c Hi Hatt.
    assert (Hci : caps 6 c0 !! i = Some c).
    { eapply prefix_lookup_Some; [|exact Ha].
      rewrite list_lookup_fmap, Hatt. reflexivity. }
    assert (Hlen : (S i < length (mallocs evs))%nat)
      by (eapply Hnext; [exact Hatt | discriminate | lia]).
    assert (Hc : c = c0 * 2 ^ Z.of_nat i).
    { eapply caps_lookup_exact; [| |exact Hci]; [lia|].
      change (2 ^ Z.of_nat (6 - 1)) with 32. lia. }
    assert (Hpow : 1 <= 2 ^ Z.of_nat i <= 16).
    { split; [apply Z.pow_le_mono_r with (b := 0); lia|].
      change 16 with (2 ^ 4). apply Z.pow_le_mono_r; lia. }
    split.
    + rewrite (prefix_lookup_lt (mallocs evs) (caps 6 c0) i) by (lia || exact Hm).
      exact Hci.
    + rewrite (prefix_lookup_lt (mallocs evs) (caps 6 c0) (S i)) by (lia || exact Hm).
      rewrite (caps_lookup_succ 6 c0 i c Hci) by lia.
      f_equal. rewrite wrap_small by nia. lia.
Qed.

Lemma inflate_capacities_witness :
  exists r w' evs,
    krowno_inflate RunLength.codec (Some RunLength.oversized) (Some None) (Some 0) w0
    = Ok r w' /\
    trace w' = trace w0 ++ evs /\
    mallocs evs !! 0%nat = Some (Z.max (4 * zlen RunLength.oversized) 1024) /\
    forall (i : nat) (c : Z),
      (i <= 4)%nat -> attempts evs !! i = Some (c, Z_BUF_ERROR) ->
      mallocs evs !! i = Some c /\ mallocs evs !! S i = Some (2 * c).
Proof.
  apply (inflate_capacities RunLength.codec RunLength.oversized None 0 w0).
  - discriminate.
  - vm_compute. discriminate.
Defined.

(** C8: with an empty input both [krowno_deflate] (at any level) and
    [krowno_inflate] return -1 at once: nothing is allocated, no library
    routine is called and the out-parameters are left as they were. *)
Theorem empty_input_rejected (zl : zlib) (level : Z)
    (o : outparam ptr) (ol : outparam Z) (w : world) :
  krowno_deflate zl (Some []) o ol level w = Ok (-1, o, ol) w /\
  krowno_inflate zl (Some []) o ol w = Ok (-1, o, ol) w.
Proof. destruct o, ol; split; reflexivity. Qed.

(** C10: [krowno_deflate] and [krowno_inflate] always return; either the
    code is -1 and both out-parameters hold what they held before the call,
    or the code is 0 and they hold the new buffer and its length. *)
Theorem outputs_written_on_success_only (zl : zlib) (input : option (list byte))
    (o : outparam ptr) (ol : outparam Z) (level : Z) (w : world) :
  (exists r w', krowno_deflate zl input o ol level w = Ok r w' /\
     (r = (-1, o, ol) \/ exists blk len, r = (0, Some (Some blk), Some len))) /\
  (exists r w', krowno_inflate zl input o ol w = Ok r w' /\
     (r = (-1, o, ol) \/ exists blk len, r = (0, Some (Some blk), Some len))).
Proof.
  split; [apply krowno_deflate_shape | apply krowno_inflate_shape].
Qed.

(** * The accumulators *)

(** ** Blocks holding a known prefix *)

Lemma prefix_is_length blk l : prefix_is blk l -> (length l <= length blk)%nat.
Proof.
  unfold prefix_is. intros H. apply (f_equal length) in H.
  rewrite length_take, length_fmap in H. lia.
Qed.

Lemma prefix_is_app_l blk l k : prefix_is blk (l ++ k) -> prefix_is blk l.
Proof.
  unfold prefix_is. intros H. apply (f_equal (take (length l))) in H.
  rewrite take_take, length_app, fmap_app in H.
  rewrite take_app_length' in H by now rewrite length_fmap.
  now replace (length l `min` (length l + length k))%nat with (length l) in H by lia.
Qed.

Lemma prefix_is_block_bytes blk l : prefix_is blk l -> block_bytes blk (zlen l) = Some l.
Proof.
  intros H. pose proof (prefix_is_length _ _ H) as Hlen.
  unfold block_bytes, zlen.
  destruct (Z.leb_spec 0 (Z.of_nat (length l))); [|lia].
  destruct (Z.leb_spec (Z.of_nat (length l)) (Z.of_nat (length blk))); [|lia].
  cbn [andb]. rewrite Nat2Z.id, H. apply mapM_id_Some.
Qed.

Lemma length_resized p n : 0 <= n -> zlen (resized p n) = n.
Proof.
  intros Hn. unfold zlen, resized. destruct p as [b|].
  - rewrite length_app, length_take, length_fresh. lia.
  - rewrite length_fresh. lia.
Qed.

Lemma take_resized (blk : block) n (k : nat) :
  (k <= length blk)%nat -> Z.of_nat k <= n ->
  take k (resized (Some blk) n) = take k blk.
Proof.
  intros Hk Hn. unfold resized.
  rewrite take_app_le by (rewrite length_take; lia).
  rewrite take_take. f_equal. lia.
Qed.

Lemma prefix_is_resized blk l n :
  prefix_is blk l -> zlen l <= n -> prefix_is (resized (Some blk) n) l.
Proof.
  intros H Hn. pose proof (prefix_is_length _ _ H).
  unfold prefix_is. rewrite take_resized by (unfold zlen in *; lia). exact H.
Qed.

Lemma memcpy_prefix dst l src n :
  prefix_is dst l -> 0 <= n <= zlen src -> zlen l + n <= zlen dst ->
  exists d, memcpy dst (zlen l) src n = Some d /\ length d = length dst /\
    prefix_is d (l ++ take (Z.to_nat n) src).
Proof.
  intros H Hn Hfit. unfold memcpy, zlen in *.
  destruct (Z.leb_spec 0 (Z.of_nat (length l))); [|lia].
  destruct (Z.leb_spec 0 n); [|lia].
  destruct (Z.leb_spec (Z.of_nat (length l) + n) (Z.of_nat (length dst))); [|lia].
  destruct (Z.leb_spec n (Z.of_nat (length src))); [|lia].
  cbn [andb]. eexists. split; [reflexivity|]. rewrite Nat2Z.id. split.
  - rewrite !length_app, length_take, length_fmap, length_take, length_drop. lia.
  - unfold prefix_is. rewrite H, app_assoc, <- fmap_app.
    apply take_app_length'. now rewrite length_fmap.
Qed.

Lemma memcpy_at (dst : block) off src n :
  0 <= off -> 0 <= n <= zlen src -> off + n <= zlen dst ->
  exists d, memcpy dst off src n = Some d /\ length d = length dst /\
    take (Z.to_nat (off + n)) d
    = take (Z.to_nat off) dst ++ (Some <$> take (Z.to_nat n) src).
Proof.
  intros Hoff Hn Hfit. unfold memcpy, zlen in *.
  destruct (Z.leb_spec 0 off); [|lia].
  destruct (Z.leb_spec 0 n); [|lia].
  destruct (Z.leb_spec (off + n) (Z.of_nat (length dst))); [|lia].
  destruct (Z.leb_spec n (Z.of_nat (length src))); [|lia].
  cbn [andb]. eexists. split; [reflexivity|]. split.
  - rewrite !length_app, length_take, length_fmap, length_take, length_drop. lia.
  - rewrite app_assoc. apply take_app_length'.
    rewrite length_app, length_take, length_fmap, length_take. lia.
Qed.

Lemma store_at (dst : block) i b :
  0 <= i < zlen dst ->
  exists d, store dst i b = Some d /\ length d = length dst /\
    take (Z.to_nat i) d = take (Z.to_nat i) dst /\
    d !! Z.to_nat i = Some (Some b).
Proof.
  intros Hi. unfold store, zlen in *.
  destruct (Z.leb_spec 0 i); [|lia].
  destruct (Z.ltb_spec i (Z.of_nat (length dst))); [|lia].
  cbn [andb]. eexists. split; [reflexivity|]. split; [apply length_insert|]. split.
  - apply take_insert_ge. lia.
  - apply list_lookup_insert_eq. lia.
Qed.

(** ** The write callback *)

(** One call whose [realloc] is granted: the block is exactly one cell
    longer than the data, the data is what was there followed by the new
    bytes, and a NUL follows it. *)
Lemma callback_granted contents sz nmemb r w :
  next_granted w = true -> 0 <= size r ->
  0 <= sz * nmemb <= zlen contents ->
  size r + sz * nmemb + 1 <= SIZE_MAX ->
  let n := sz * nmemb in
  let total := size r + n in
  exists blk,
    krowno_curl_write_callback contents sz nmemb r w
    = Ok (n, Response (Some blk) total (status_code r))
         (World (tail (heap_oracle w)) (trace w ++ [EvRealloc (total + 1) true])) /\
    zlen blk = total + 1 /\
    blk !! Z.to_nat total = Some (Some x00) /\
    take (Z.to_nat total) blk
    = take (Z.to_nat (size r)) (resized (data r) (total + 1))
      ++ (Some <$> take (Z.to_nat n) contents).
Proof.
  intros Hg Hsz Hn Hmax n total. destruct r as [rdata rsize rstatus].
  cbn [size data status_code] in *. subst n total.
  unfold krowno_curl_write_callback.
  rewrite (wrap_small (sz * nmemb)) by lia.
  rewrite (wrap_small (rsize + sz * nmemb)) by lia.
  rewrite (wrap_small (rsize + sz * nmemb + 1)) by lia.
  unfold bind at 1. rewrite realloc_next by exact Hg.
  pose proof (length_resized rdata (rsize + sz * nmemb + 1)) as Hlen.
  destruct (memcpy_at (resized rdata (rsize + sz * nmemb + 1)) rsize contents
              (sz * nmemb)) as (d1 & -> & Hl1 & Hd1); [lia | lia | lia |].
  destruct (store_at d1 (rsize + sz * nmemb) x00) as (d2 & -> & Hl2 & Hd2 & Hnul).
  { unfold zlen in *. lia. }
  exists d2. split; [reflexivity|].
  split; [unfold zlen in *; lia|]. split; [exact Hnul|].
  now rewrite Hd2, Hd1.
Qed.

(** One call whose [realloc] is refused: 0 is returned and the response is
    left as it was. *)
Lemma callback_refused contents sz nmemb r o tr :
  krowno_curl_write_callback contents sz nmemb r (World (false :: o) tr)
  = Ok (0, r)
       (World o (tr ++ [EvRealloc (wrap (wrap (size r + wrap (sz * nmemb)) + 1))
                          false])).
Proof. destruct r as [rdata rsize rstatus]. reflexivity. Qed.

Lemma callback_holds contents sz nmemb r l w :
  holds r l -> granting w = true ->
  0 <= sz * nmemb <= zlen contents ->
  zlen l + sz * nmemb + 1 <= SIZE_MAX ->
  exists r' w',
    krowno_curl_write_callback contents sz nmemb r w = Ok (sz * nmemb, r') w' /\
    holds r' (l ++ take (Z.to_nat (sz * nmemb)) contents) /\
    nul_terminated r' /\ status_code r' = status_code r /\
    trace w' = trace w ++ [EvRealloc (zlen l + sz * nmemb + 1) true] /\
    granting w' = true.
Proof.
  intros [Hsz Hdata] Hg Hn Hmax. pose proof (zlen_nonneg l) as Hl0.
  destruct (callback_granted contents sz nmemb r w (granting_next w Hg)) as
    (blk & Hrun & Hlen & Hnul & Htake); try lia.
  rewrite Hsz in *.
  eexists _, _. split; [exact Hrun|].
  split; [|split; [|split; [reflexivity|split;
    [reflexivity | now apply (granting_after w)]]]].
  - split; cbn [size data].
    + unfold zlen. rewrite length_app, length_take. unfold zlen in *. lia.
    + assert (Hpre : take (length l) (resized (data r) (zlen l + sz * nmemb + 1))
                     = Some <$> l).
      { destruct (data r) as [old|].
        - pose proof (prefix_is_length _ _ Hdata).
          rewrite take_resized by (unfold zlen in *; lia). exact Hdata.
        - subst l. reflexivity. }
      unfold prefix_is.
      replace (Z.to_nat (zlen l)) with (length l) in Htake by (unfold zlen; lia).
      rewrite Hpre in Htake.
      rewrite fmap_app, <- Htake. f_equal.
      rewrite length_app, length_take. unfold zlen in *. lia.
  - exists blk. cbn [size data]. auto.
Qed.

(** Every block of the body is taken when the allocator grants every
    request. *)
Lemma curl_deliver_granted chunks : forall r l w,
  holds r l -> granting w = true ->
  zlen l + zlen (concat chunks) + 1 <= SIZE_MAX ->
  exists r' w', curl_deliver chunks r w = Ok (true, r') w' /\
    holds r' (l ++ concat chunks) /\ status_code r' = status_code r /\
    granting w' = true.
Proof.
  induction chunks as [|c cs IH]; intros r l w Hr Hg Hmax.
  - exists r, w. cbn [concat]. rewrite app_nil_r. auto.
  - cbn [concat] in *. unfold zlen in Hmax. rewrite length_app in Hmax.
    pose proof (zlen_nonneg c). pose proof (zlen_nonneg (concat cs)).
    cbn [curl_deliver]. unfold bind.
    destruct (callback_holds c 1 (zlen c) r l w Hr Hg) as
      (r1 & w1 & -> & Hr1 & _ & Hst & _ & Hg1); [lia | unfold zlen in *; lia |].
    cbn [fst snd]. replace (1 * zlen c) with (zlen c) in * by lia.
    rewrite Z.eqb_refl. unfold zlen in Hr1. rewrite Nat2Z.id, take_ge in Hr1 by lia.
    destruct (IH r1 (l ++ c) w1 Hr1 Hg1) as (r2 & w2 & -> & Hr2 & Hst2 & Hg2).
    { unfold zlen in *. rewrite length_app. lia. }
    exists r2, w2. rewrite <- app_assoc in Hr2.
    split; [reflexivity|]. split; [exact Hr2|]. split; [congruence | exact Hg2].
Qed.

(** ** Reading the pipe *)

Lemma read_line_split n s l r : read_line n s = (l, r) -> s = l ++ r.
Proof.
  revert s l r. induction n as [|n IH]; intros s l r.
  - destruct s; intros H; inversion H; reflexivity.
  - destruct s as [|c s]; [intros H; inversion H; reflexivity|].
    cbn [read_line]. destruct (Byte.eqb c x0a).
    + intros H; inversion H; reflexivity.
    + destruct (read_line n s) as [l' r'] eqn:E.
      intros H; inversion H; subst. cbn [app]. f_equal. apply IH, E.
Qed.

Lemma read_line_progress n c s l r : read_line (S n) (c :: s) = (l, r) -> l <> [].
Proof.
  cbn [read_line]. destruct (Byte.eqb c x0a).
  - intros H; inversion H; discriminate.
  - destruct (read_line n s). intros H; inversion H; discriminate.
Qed.

Lemma read_line_length n s l r : read_line n s = (l, r) -> (length l <= n)%nat.
Proof.
  revert s l r. induction n as [|n IH]; intros s l r.
  - destruct s; intros H; inversion H; cbn; lia.
  - destruct s as [|c s]; [intros H; inversion H; cbn; lia|].
    cbn [read_line]. destruct (Byte.eqb c x0a).
    + intros H; inversion H. cbn. lia.
    + destruct (read_line n s) as [l' r'] eqn:E.
      intros H; inversion H; subst. apply IH in E. cbn [length]. lia.
Qed.

Lemma fgets_Some pipe buffer rest :
  fgets 256 pipe = Some (buffer, rest) ->
  exists line, buffer = line ++ [x00] /\ pipe = line ++ rest /\
    (0 < length line <= 255)%nat.
Proof.
  unfold fgets. destruct pipe as [|c s]; [congruence|].
  change (256 - 1)%nat with (S 254).
  destruct (read_line (S 254) (c :: s)) as [l r] eqn:E.
  intros H; inversion H; subst. exists l.
  pose proof (read_line_progress _ _ _ _ _ E).
  pose proof (read_line_length _ _ _ _ E).
  split; [reflexivity|]. split; [now apply read_line_split in E|].
  destruct l; [congruence | cbn [length] in *; lia].
Qed.

Lemma fgets_None pipe : fgets 256 pipe = None -> pipe = [].
Proof.
  unfold fgets. destruct pipe as [|c s]; [reflexivity|].
  destruct (read_line (256 - 1) (c :: s)). discriminate.
Qed.

Lemma has_nul_terminated line : has_nul (line ++ [x00]) = true.
Proof. unfold has_nul. rewrite existsb_app. cbn. apply orb_true_r. Qed.

Lemma length_c_string_terminated line :
  (length (c_string (line ++ [x00])) <= length line)%nat.
Proof.
  induction line as [|c s IH]; [cbn; lia|]. cbn [app c_string].
  destruct (Byte.eqb c x00); cbn [length]; lia.
Qed.

Lemma c_string_nul_free line :
  Forall (fun b => b <> x00) line -> c_string (line ++ [x00]) = line.
Proof.
  induction 1 as [|c s Hc _ IH]; [reflexivity|]. cbn [app c_string].
  destruct (Byte.eqb c x00) eqn:E; [apply Byte.byte_dec_bl in E; congruence|].
  now rewrite IH.
Qed.

(** Unfolding the read loop. *)
Lemma capture_loop_eq pipe st w :
  capture_loop pipe st w =
  match fgets 256 pipe with
  | None => Ok (Some st) w
  | Some (buffer, rest) =>
    match capture_append buffer st w with
    | Ok (Some st') w' => capture_loop rest st' w'
    | Ok None w' => Ok None w'
    | Fault => Fault
    end
  end.
Proof.
  funelim (capture_loop pipe st w);
    try match goal with H : fgets 256 _ = _ |- _ => rewrite H end;
    cbv beta iota;
    try match goal with H : capture_append _ _ _ = _ |- _ => rewrite H end;
    reflexivity.
Qed.

(** ** The capture buffer *)

Lemma strcpy_prefix dst l src :
  prefix_is dst l -> has_nul src = true -> zlen l + strlen src + 1 <= zlen dst ->
  exists d, strcpy dst (zlen l) src = Some d /\ length d = length dst /\
    prefix_is d (l ++ c_string src).
Proof.
  intros H Hnul Hfit. unfold strcpy. rewrite Hnul.
  destruct (memcpy_prefix dst l (c_string src ++ [x00]) (strlen src + 1) H)
    as (d & Hd & Hlen & Hpre).
  - unfold strlen, zlen. rewrite length_app. cbn [length]. lia.
  - lia.
  - exists d. split; [exact Hd|]. split; [exact Hlen|].
    rewrite take_ge in Hpre
      by (unfold strlen, zlen; rewrite length_app; cbn [length]; lia).
    rewrite app_assoc in Hpre. now apply prefix_is_app_l in Hpre.
Qed.

(** One round of the read loop, in full: no growth when the chunk and its
    terminator fit; otherwise one [realloc] to twice the capacity, after
    which they fit; when that [realloc] is refused the buffer is freed. *)
Lemma capture_append_run buffer st l w :
  captured st l -> has_nul buffer = true -> strlen buffer <= 255 ->
  2 * (zlen l + 255) <= SIZE_MAX ->
  let cap := result_capacity st in
  if result_size st + strlen buffer >=? cap then
    match heap_oracle w with
    | false :: o =>
      capture_append buffer st w
      = Ok None (World o (trace w ++ [EvRealloc (2 * cap) false; EvFree]))
    | _ =>
      exists st',
        capture_append buffer st w
        = Ok (Some st') (World (tail (heap_oracle w))
                               (trace w ++ [EvRealloc (2 * cap) true])) /\
        captured st' (l ++ c_string buffer) /\ result_capacity st' = 2 * cap
    end
  else
    exists st', capture_append buffer st w = Ok (Some st') w /\
      captured st' (l ++ c_string buffer) /\ result_capacity st' = cap.
Proof.
  intros (Hlen & Hsz & Hroom & Hcap & Hpre) Hnul Hshort Hmax cap. subst cap.
  destruct st as [res sz cap]. cbn [result result_size result_capacity] in *. subst sz.
  pose proof (zlen_nonneg l) as Hl0. pose proof (zlen_nonneg (c_string buffer)) as Hs0.
  fold (strlen buffer) in Hs0.
  assert (Happ : zlen (l ++ c_string buffer) = zlen l + strlen buffer)
    by (unfold strlen, zlen; rewrite length_app; lia).
  unfold capture_append. cbn [result result_size result_capacity].
  rewrite (wrap_small (zlen l + strlen buffer)) by lia.
  destruct (Z.geb_spec (zlen l + strlen buffer) cap) as [Hgrow|Hfits].
  - rewrite (wrap_small (cap * 2)) by lia. replace (cap * 2) with (2 * cap) by lia.
    destruct w as [[|[|] o] tr]; cbn [heap_oracle trace tail].
    3:{ step. now rewrite <- app_assoc. }
    all: step; cbn [result result_size result_capacity];
      destruct (strcpy_prefix (resized (Some res) (2 * cap)) l buffer)
        as (d & -> & Hd & Hpre');
      [ apply prefix_is_resized; [exact Hpre | lia]
      | exact Hnul
      | rewrite length_resized by lia; lia
      | rewrite ?(wrap_small (zlen l + strlen buffer)) by lia;
        eexists; split; [reflexivity|]; split; [|reflexivity];
        unfold captured; cbn [result result_size result_capacity];
        pose proof (length_resized (Some res) (2 * cap));
        unfold zlen in *; repeat split; try lia; exact Hpre' ].
  - unfold bind, ret. cbn [result result_size result_capacity].
    destruct (strcpy_prefix res l buffer) as (d & -> & Hd & Hpre');
      [exact Hpre | exact Hnul | lia |].
    rewrite ?(wrap_small (zlen l + strlen buffer)) by lia.
    eexists. split; [reflexivity|]. split; [|reflexivity].
    unfold captured; cbn [result result_size result_capacity].
    unfold zlen in *. repeat split; try lia. exact Hpre'.
Qed.

Lemma capture_append_cases buffer st l w :
  captured st l -> has_nul buffer = true -> strlen buffer <= 255 ->
  2 * (zlen l + 255) <= SIZE_MAX ->
  (exists st' w' evs,
     capture_append buffer st w = Ok (Some st') w' /\
     trace w' = trace w ++ evs /\ Forall granted_realloc evs /\
     captured st' (l ++ c_string buffer) /\
     (granting w = true -> granting w' = true)) \/
  (exists w' n,
     capture_append buffer st w = Ok None w' /\
     trace w' = trace w ++ [EvRealloc n false; EvFree] /\ granting w = false).
Proof.
  intros Hst Hnul Hshort Hmax.
  pose proof (capture_append_run buffer st l w Hst Hnul Hshort Hmax) as H.
  cbv zeta in H.
  destruct (result_size st + strlen buffer >=? result_capacity st).
  - destruct w as [[|[|] o] tr]; cbn [heap_oracle tail trace] in H.
    + destruct H as (st' & Hrun & Hst' & _). left.
      exists st', (World [] (tr ++ [EvRealloc (2 * result_capacity st) true])),
        [EvRealloc (2 * result_capacity st) true].
      split; [exact Hrun|]. split; [reflexivity|].
      split; [repeat constructor; now eexists|]. split; [exact Hst'|].
      reflexivity.
    + destruct H as (st' & Hrun & Hst' & _). left.
      exists st', (World o (tr ++ [EvRealloc (2 * result_capacity st) true])),
        [EvRealloc (2 * result_capacity st) true].
      split; [exact Hrun|]. split; [reflexivity|].
      split; [repeat constructor; now eexists|]. split; [exact Hst'|].
      intros Hg. now apply granting_tail in Hg.
    + right. eexists _, _. split; [exact H|]. split; reflexivity.
  - destruct H as (st' & Hrun & Hst' & _). left.
    exists st', w, []. rewrite app_nil_r.
    split; [exact Hrun|]. split; [reflexivity|]. split; [constructor|].
    split; [exact Hst' | auto].
Qed.

(** The read loop always ends: with the buffer holding what it held
    followed by the text read (the whole stream when it has no NUL byte),
    or with the buffer freed after a refused [realloc]. *)
Lemma capture_loop_run (k : nat) : forall pipe st l w,
  (length pipe <= k)%nat -> captured st l ->
  2 * (zlen l + zlen pipe + 255) <= SIZE_MAX ->
  exists res w' evs,
    capture_loop pipe st w = Ok res w' /\ trace w' = trace w ++ evs /\
    match res with
    | Some st' =>
      exists text, captured st' (l ++ text) /\ (length text <= length pipe)%nat /\
        (Forall (fun b => b <> x00) pipe -> text = pipe) /\
        Forall granted_realloc evs
    | None => exists evs0 n, evs = evs0 ++ [EvRealloc n false; EvFree]
    end /\
    (granting w = true -> res <> None /\ granting w' = true).
Proof.
  induction k as [|k IH]; intros pipe st l w Hk Hst Hmax; rewrite capture_loop_eq.
  - destruct pipe; [|cbn in Hk; lia]. cbn [fgets].
    exists (Some st), w, []. rewrite app_nil_r. split; [reflexivity|].
    split; [reflexivity|]. split; [|auto with *].
    exists []. rewrite app_nil_r.
    split; [exact Hst|]. split; [reflexivity|]. split; [reflexivity | constructor].
  - destruct (fgets 256 pipe) as [[buffer rest]|] eqn:E.
    2:{ apply fgets_None in E. subst pipe.
        exists (Some st), w, []. rewrite app_nil_r. split; [reflexivity|].
        split; [reflexivity|]. split; [|auto with *].
        exists []. rewrite app_nil_r.
        split; [exact Hst|]. split; [reflexivity|].
        split; [reflexivity | constructor]. }
    apply fgets_Some in E as (line & -> & -> & Hline).
    pose proof (length_c_string_terminated line) as Hcs.
    unfold zlen in Hmax. rewrite length_app in Hmax.
    destruct (capture_append_cases (line ++ [x00]) st l w Hst)
      as [(st1 & w1 & evs1 & -> & Ht1 & Hev1 & Hst1 & Hg1)
         |(w1 & n & -> & Ht1 & Hg1)].
    + apply has_nul_terminated.
    + unfold strlen, zlen. lia.
    + unfold zlen. lia.
    + destruct (IH rest st1 (l ++ c_string (line ++ [x00])) w1)
        as (res & w2 & evs2 & -> & Ht2 & Hres & Hg2).
      { rewrite length_app in Hk. lia. }
      { exact Hst1. }
      { unfold zlen. rewrite length_app. lia. }
      exists res, w2, (evs1 ++ evs2). split; [reflexivity|].
      split; [now rewrite Ht2, Ht1, app_assoc|]. split.
      * destruct res as [st2|].
        -- destruct Hres as (text & Hst2 & Hlen & Hfree & Hev2).
           exists (c_string (line ++ [x00]) ++ text).
           split; [now rewrite app_assoc|].
           split; [rewrite !length_app; lia|].
           split; [|now apply Forall_app].
           intros Hpipe. apply Forall_app in Hpipe as [Hl Hr].
           now rewrite (c_string_nul_free line Hl), (Hfree Hr).
        -- destruct Hres as (evs0 & m & ->). exists (evs1 ++ evs0), m.
           now rewrite app_assoc.
      * intros Hg. apply Hg2, Hg1, Hg.
    + exists None, w1, [EvRealloc n false; EvFree]. split; [reflexivity|].
      split; [exact Ht1|]. split; [now exists [], n|].
      intros Hg. congruence.
Qed.

(** ** [krowno_execute_command] as a whole *)

Lemma initial_captured : captured (Capture (fresh 1024) 0 1024) [].
Proof.
  unfold captured. cbn [result result_size result_capacity].
  repeat split; try (vm_compute; congruence).
Qed.

Lemma granted_not_refused evs : Forall granted_realloc evs -> existsb refused evs = false.
Proof.
  induction 1 as [|e evs [n ->] _ IH]; [reflexivity|]. cbn. exact IH.
Qed.

Lemma existsb_refused_app evs1 evs2 :
  existsb refused (evs1 ++ evs2) = existsb refused evs1 || existsb refused evs2.
Proof. apply existsb_app. Qed.

Section CaptureRuns.

Variable popen : string -> option process.

Lemma execute_command_run cmd pipe o ol w :
  popen cmd = Some pipe ->
  2 * (zlen (stdout_bytes pipe) + 255) <= SIZE_MAX ->
  exists r w' evs,
    krowno_execute_command popen (Some cmd) o ol w = Ok r w' /\
    trace w' = trace w ++ evs /\
    (capture_success pipe o ol r evs \/ capture_failure o ol r evs) /\
    (granting w = true -> capture_success pipe o ol r evs).
Proof.
  intros Hp Hmax. unfold krowno_execute_command. rewrite Hp. unfold bind at 1.
  assert (Hm : exists ok w1, malloc 1024 w
                 = Ok (if ok : bool then Some (fresh 1024) else None) w1 /\
               trace w1 = trace w ++ [EvMalloc 1024 ok] /\
               (granting w = true -> ok = true /\ granting w1 = true)).
  { destruct w as [[|b o'] tr]; step.
    - exists true. eexists. repeat split.
    - exists b. eexists. split; [reflexivity|]. split; [reflexivity|].
      intros Hg. now apply granting_tail in Hg. }
  destruct Hm as (ok & w1 & -> & Ht1 & Hg1). destruct ok.
  2:{ step. eexists _, _, [EvMalloc 1024 false; EvPclose].
      split; [reflexivity|]. cbn [trace]. rewrite Ht1, <- app_assoc.
      split; [reflexivity|]. split.
      - right. split; [reflexivity | now left].
      - intros Hg. destruct (Hg1 Hg). discriminate. }
  unfold bind at 1.
  destruct (capture_loop_run (length (stdout_bytes pipe)) (stdout_bytes pipe)
              (Capture (fresh 1024) 0 1024) [] w1)
    as (res & w2 & evs & -> & Ht2 & Hres & Hg2);
    [lia | apply initial_captured | unfold zlen in *; cbn [length]; lia |].
  step. destruct res as [st|].
  - destruct Hres as (text & Hst & _ & Hfree & Hev).
    eexists _, _, (EvMalloc 1024 true :: evs ++ [EvPclose]).
    split; [reflexivity|]. cbn [trace]. rewrite Ht2, Ht1, <- !app_assoc.
    split; [reflexivity|].
    assert (Hs : capture_success pipe o ol
                   (WEXITSTATUS (wait_status pipe), assign o (Some (result st)),
                    assign ol (result_size st))
                   (EvMalloc 1024 true :: evs ++ [EvPclose])).
    { exists text, st, evs. pose proof Hst as (_ & Hsz & _). rewrite Hsz.
      split; [reflexivity|]. split; [exact Hst|]. auto. }
    split; [now left | intros _; exact Hs].
  - destruct Hres as (evs0 & n & ->).
    eexists _, _, (EvMalloc 1024 true :: evs0 ++ [EvRealloc n false; EvFree; EvPclose]).
    split; [reflexivity|]. cbn [trace]. rewrite Ht2, Ht1, <- !app_assoc.
    split; [reflexivity|]. split.
    + right. split; [reflexivity|]. right. now exists evs0, n.
    + intros Hg. destruct (Hg1 Hg) as [_ Hgw1]. destruct (Hg2 Hgw1). congruence.
Qed.

End CaptureRuns.

Lemma holds_response_bytes r l : holds r l -> response_bytes r = Some l.
Proof.
  intros [Hsz Hd]. unfold response_bytes. rewrite Hsz. destruct (data r) as [blk|].
  - now apply prefix_is_block_bytes.
  - subst l. reflexivity.
Qed.

Lemma holds_empty : holds empty_response [].
Proof. split; reflexivity. Qed.

(** * Growth, failure and fidelity of the accumulators *)

(** C3 (amended): at the subprocess site, when the chunk and its terminator
    do not fit, the capacity is doubled before the copy (which is also the
    larger of twice the capacity and length plus chunk length, chunks being
    shorter than 256 bytes and the capacity at least 1024); at the
    response-body site every append reallocates the buffer to exactly
    length plus chunk length plus one. At both sites the bytes written
    before are unchanged after the relocation. *)
Theorem growth_at_both_sites
    (buffer : list byte) (st : capture) (l : list byte) (w : world)
    (contents : list byte) (sz nmemb : Z) (r : krowno_http_response)
    (old : block) (w2 : world) :
  captured st l -> has_nul buffer = true -> strlen buffer <= 255 ->
  2 * (zlen l + 255) <= SIZE_MAX ->
  result_capacity st <= result_size st + strlen buffer ->
  next_granted w = true ->
  data r = Some old -> 0 <= size r <= zlen old ->
  0 <= sz * nmemb <= zlen contents -> size r + sz * nmemb + 1 <= SIZE_MAX ->
  next_granted w2 = true ->
  (exists st',
     capture_append buffer st w
     = Ok (Some st') (World (tail (heap_oracle w))
                            (trace w ++ [EvRealloc (2 * result_capacity st) true])) /\
     result_capacity st' = 2 * result_capacity st /\
     result_capacity st'
     = Z.max (2 * result_capacity st) (result_size st + strlen buffer) /\
     zlen (result st') = result_capacity st' /\
     take (Z.to_nat (result_size st)) (result st')
     = take (Z.to_nat (result_size st)) (result st)) /\
  (exists blk,
     krowno_curl_write_callback contents sz nmemb r w2
     = Ok (sz * nmemb, Response (Some blk) (size r + sz * nmemb) (status_code r))
          (World (tail (heap_oracle w2))
                 (trace w2 ++ [EvRealloc (size r + sz * nmemb + 1) true])) /\
     zlen blk = size r + sz * nmemb + 1 /\
     take (Z.to_nat (size r)) blk = take (Z.to_nat (size r)) old).
Proof.
  intros Hst Hnul Hshort Hmax Hgrow Hw Hdata Hsz Hn Hmax2 Hw2. split.
  - pose proof (capture_append_run buffer st l w Hst Hnul Hshort Hmax) as H.
    cbv zeta in H.
    destruct (Z.geb_spec (result_size st + strlen buffer) (result_capacity st)); [|lia].
    assert (H' : exists st',
               capture_append buffer st w
               = Ok (Some st') (World (tail (heap_oracle w))
                       (trace w ++ [EvRealloc (2 * result_capacity st) true])) /\
               captured st' (l ++ c_string buffer) /\
               result_capacity st' = 2 * result_capacity st).
    { unfold next_granted in Hw. destruct (heap_oracle w) as [|[|] o]; try exact H.
      discriminate. }
    destruct H' as (st' & Hrun & Hst' & Hcap). exists st'.
    destruct Hst as (_ & Hsize & Hroom & Hc & Hpre).
    destruct Hst' as (Hlen' & _ & _ & _ & Hpre').
    apply prefix_is_app_l in Hpre'.
    split; [exact Hrun|]. split; [exact Hcap|]. split; [lia|]. split; [congruence|].
    rewrite Hsize. unfold zlen. rewrite Nat2Z.id. unfold prefix_is in *. congruence.
  - destruct (callback_granted contents sz nmemb r w2 Hw2) as (blk & Hrun & Hlen & _ & Htake);
      [lia | lia | lia |].
    exists blk. split; [exact Hrun|]. split; [exact Hlen|].
    apply (f_equal (take (Z.to_nat (size r)))) in Htake.
    rewrite take_take, Hdata in Htake.
    rewrite take_app_le in Htake
      by (rewrite length_take; pose proof (length_resized (Some old) (size r + sz * nmemb + 1));
          unfold zlen in *; lia).
    rewrite take_take, take_resized in Htake by (unfold zlen in *; lia).
    replace (Z.to_nat (size r) `min` Z.to_nat (size r + sz * nmemb))%nat
      with (Z.to_nat (size r)) in Htake by lia.
    replace (Z.to_nat (size r) `min` Z.to_nat (size r))%nat
      with (Z.to_nat (size r)) in Htake by lia.
    exact Htake.
Qed.

Lemma sample_st_captured : captured Samples.st Samples.text.
Proof.
  unfold captured. cbn [result result_size result_capacity Samples.st]. unfold Samples.st.
  repeat split; try (vm_compute; congruence).
Qed.

Lemma growth_at_both_sites_witness :
  (exists st',
     capture_append Samples.buffer Samples.st w0
     = Ok (Some st') (World (tail (heap_oracle w0))
                            (trace w0 ++ [EvRealloc (2 * result_capacity Samples.st) true])) /\
     result_capacity st' = 2 * result_capacity Samples.st /\
     result_capacity st'
     = Z.max (2 * result_capacity Samples.st)
             (result_size Samples.st + strlen Samples.buffer) /\
     zlen (result st') = result_capacity st' /\
     take (Z.to_nat (result_size Samples.st)) (result st')
     = take (Z.to_nat (result_size Samples.st)) (result Samples.st)) /\
  (exists blk,
     krowno_curl_write_callback Samples.chunk 1 5 Samples.response w0
     = Ok (1 * 5, Response (Some blk) (size Samples.response + 1 * 5)
                    (status_code Samples.response))
          (World (tail (heap_oracle w0))
                 (trace w0 ++ [EvRealloc (size Samples.response + 1 * 5 + 1) true])) /\
     zlen blk = size Samples.response + 1 * 5 + 1 /\
     take (Z.to_nat (size Samples.response)) blk
     = take (Z.to_nat (size Samples.response)) Samples.body).
Proof.
  apply (growth_at_both_sites Samples.buffer Samples.st Samples.text w0
           Samples.chunk 1 5 Samples.response Samples.body w0).
  - apply sample_st_captured.
  - reflexivity.
  - vm_compute. discriminate.
  - vm_compute. discriminate.
  - vm_compute. discriminate.
  - reflexivity.
  - reflexivity.
  - vm_compute. split; discriminate.
  - vm_compute. split; discriminate.
  - vm_compute. discriminate.
  - reflexivity.
Defined.

(** C3, as stated, fails at the response-body site: a buffer of 11 cells
    holding 10 bytes that takes a chunk of 5 is reallocated to 16 cells, not
    to the larger of twice the capacity and length plus chunk length. *)
Lemma body_growth_is_exact :
  capacity_of Samples.response = 11 /\
  option_map (fun x => capacity_of (snd x))
    (result_of (krowno_curl_write_callback Samples.chunk 1 5 Samples.response w0))
  = Some 16 /\
  16 <> Z.max (2 * capacity_of Samples.response)
              (size Samples.response + zlen Samples.chunk).
Proof. vm_compute. repeat split; congruence. Qed.

(** C4 (amended): when [realloc] is refused, the write callback returns 0
    and leaves the response, its buffer and its size as they were; in
    [krowno_execute_command] the refused [realloc] is followed by [free] of
    the buffer, so that the bytes accumulated are discarded, the pipe is
    closed and -1 is returned with the out-parameters unwritten. *)
Theorem allocation_failure_at_both_sites
    (contents : list byte) (sz nmemb : Z) (r : krowno_http_response)
    (o : list bool) (tr : list event)
    (buffer : list byte) (st : capture) (l : list byte)
    (popen : string -> option process) (cmd : string) (pipe : process)
    (out : outparam ptr) (out_len : outparam Z) (w : world) :
  captured st l -> has_nul buffer = true -> strlen buffer <= 255 ->
  2 * (zlen l + 255) <= SIZE_MAX ->
  result_capacity st <= result_size st + strlen buffer ->
  popen cmd = Some pipe ->
  2 * (zlen (stdout_bytes pipe) + 255) <= SIZE_MAX ->
  krowno_curl_write_callback contents sz nmemb r (World (false :: o) tr)
  = Ok (0, r)
       (World o (tr ++ [EvRealloc (wrap (wrap (size r + wrap (sz * nmemb)) + 1)) false])) /\
  capture_append buffer st (World (false :: o) tr)
  = Ok None (World o (tr ++ [EvRealloc (2 * result_capacity st) false; EvFree])) /\
  exists res w' evs,
    krowno_execute_command popen (Some cmd) out out_len w = Ok res w' /\
    trace w' = trace w ++ evs /\
    (existsb refused evs = true -> capture_failure out out_len res evs).
Proof.
  intros Hst Hnul Hshort Hmax Hgrow Hp Hmax2.
  split; [apply callback_refused|]. split.
  - pose proof (capture_append_run buffer st l (World (false :: o) tr)
                  Hst Hnul Hshort Hmax) as H.
    cbv zeta in H. cbn [heap_oracle trace] in H.
    destruct (Z.geb_spec (result_size st + strlen buffer) (result_capacity st));
      [exact H | lia].
  - destruct (execute_command_run popen cmd pipe out out_len w Hp Hmax2)
      as (res & w' & evs & Hrun & Ht & [Hs|Hf] & _).
    + exists res, w', evs. split; [exact Hrun|]. split; [exact Ht|].
      destruct Hs as (text & st' & evs0 & _ & _ & _ & -> & Hev).
      cbn [existsb refused]. rewrite existsb_refused_app, granted_not_refused by exact Hev.
      cbn. discriminate.
    + exists res, w', evs. auto.
Qed.

Lemma allocation_failure_at_both_sites_witness :
  krowno_curl_write_callback Samples.chunk 1 5 Samples.response (World [false] [])
  = Ok (0, Samples.response)
       (World [] ([] ++ [EvRealloc (wrap (wrap (size Samples.response + wrap (1 * 5)) + 1))
                           false])) /\
  capture_append Samples.buffer Samples.st (World [false] [])
  = Ok None (World [] ([] ++ [EvRealloc (2 * result_capacity Samples.st) false; EvFree])) /\
  exists res w' evs,
    krowno_execute_command (Samples.popen_gives Samples.long_output) (Some "ls"%string)
      (Some None) (Some 0) (World [true; false] []) = Ok res w' /\
    trace w' = trace (World [true; false] []) ++ evs /\
    (existsb refused evs = true -> capture_failure (Some None) (Some 0) res evs).
Proof.
  apply (allocation_failure_at_both_sites Samples.chunk 1 5 Samples.response [] []
           Samples.buffer Samples.st Samples.text
           (Samples.popen_gives Samples.long_output) "ls"%string Samples.long_output
           (Some None) (Some 0) (World [true; false] [])).
  - apply sample_st_captured.
  - reflexivity.
  - vm_compute. discriminate.
  - vm_compute. discriminate.
  - vm_compute. discriminate.
  - reflexivity.
  - vm_compute. discriminate.
Defined.

(** C4, as stated, fails at the subprocess site: with 1100 bytes of output
    and the first [realloc] refused, the buffer holding the first 1020 bytes
    is freed and the caller is handed nothing. *)
Lemma capture_discarded_on_refusal :
  krowno_execute_command (Samples.popen_gives Samples.long_output) (Some "ls"%string)
    (Some None) (Some 0) (World [true; false] [])
  = Ok (-1, Some None, Some 0)
       (World [] [EvMalloc 1024 true; EvRealloc 2048 false; EvFree; EvPclose]).
Proof. vm_compute. reflexivity. Qed.

Lemma zlen_concat (chunks : list (list byte)) :
  zlen (concat chunks) = foldr (fun c n => zlen c + n) 0 chunks.
Proof.
  induction chunks as [|c cs IH]; [reflexivity|].
  cbn [concat foldr]. rewrite <- IH. unfold zlen. rewrite length_app. lia.
Qed.

(** C5 (amended): with an allocator that grants every request, the
    response-body accumulator fed the chunks [c1 ... cn] (any bytes, any
    sizes, empty chunks included) ends up holding exactly their
    concatenation, its size being the sum of their lengths; and
    [krowno_execute_command] hands back exactly the bytes the command wrote,
    with their number, when none of them is a NUL byte. *)
Theorem accumulated_bytes_are_the_input
    (chunks : list (list byte)) (w : world)
    (popen : string -> option process) (cmd : string) (pipe : process)
    (o : ptr) (ol : Z) (w2 : world) :
  granting w = true -> zlen (concat chunks) + 1 <= SIZE_MAX ->
  popen cmd = Some pipe -> granting w2 = true ->
  Forall (fun b => b <> x00) (stdout_bytes pipe) ->
  2 * (zlen (stdout_bytes pipe) + 255) <= SIZE_MAX ->
  (exists r' w',
     curl_deliver chunks empty_response w = Ok (true, r') w' /\
     size r' = foldr (fun c n => zlen c + n) 0 chunks /\
     response_bytes r' = Some (concat chunks)) /\
  (exists res w2',
     krowno_execute_command popen (Some cmd) (Some o) (Some ol) w2 = Ok res w2' /\
     fst (fst res) = WEXITSTATUS (wait_status pipe) /\
     snd res = Some (zlen (stdout_bytes pipe)) /\
     output_bytes res = Some (stdout_bytes pipe)).
Proof.
  intros Hg Hmax Hp Hg2 Hfree Hmax2. split.
  - destruct (curl_deliver_granted chunks empty_response [] w holds_empty Hg)
      as (r' & w' & Hrun & Hr' & _ & _).
    { unfold zlen at 1. cbn [length]. lia. }
    cbn [app] in Hr'. exists r', w'. split; [exact Hrun|].
    split; [|now apply holds_response_bytes].
    destruct Hr' as [-> _]. apply zlen_concat.
  - destruct (execute_command_run popen cmd pipe (Some o) (Some ol) w2 Hp Hmax2)
      as (res & w2' & evs & Hrun & _ & _ & Hs).
    destruct (Hs Hg2) as (text & st & evs0 & -> & Hst & Htext & _).
    rewrite (Htext Hfree) in *. eexists _, w2'. split; [exact Hrun|].
    cbn [fst snd assign output_bytes]. repeat split.
    destruct Hst as (_ & _ & _ & _ & Hpre). now apply prefix_is_block_bytes.
Qed.

Lemma accumulated_bytes_are_the_input_witness :
  (exists r' w',
     curl_deliver [Samples.chunk; []; Samples.text] empty_response w0 = Ok (true, r') w' /\
     size r' = foldr (fun c n => zlen c + n) 0 [Samples.chunk; []; Samples.text] /\
     response_bytes r' = Some (concat [Samples.chunk; []; Samples.text])) /\
  (exists res w2',
     krowno_execute_command (Samples.popen_gives Samples.text_output) (Some "ls"%string)
       (Some None) (Some 0) w0 = Ok res w2' /\
     fst (fst res) = WEXITSTATUS (wait_status Samples.text_output) /\
     snd res = Some (zlen (stdout_bytes Samples.text_output)) /\
     output_bytes res = Some (stdout_bytes Samples.text_output)).
Proof.
  apply (accumulated_bytes_are_the_input [Samples.chunk; []; Samples.text] w0
           (Samples.popen_gives Samples.text_output) "ls"%string Samples.text_output
           None 0 w0).
  - reflexivity.
  - vm_compute. discriminate.
  - reflexivity.
  - reflexivity.
  - vm_compute. repeat constructor; discriminate.
  - vm_compute. discriminate.
Defined.

(** C5, as stated, fails at the subprocess site: the chunk [fgets] hands
    over holds the four bytes the command wrote, one of them NUL, and only
    the byte before the NUL is accumulated. *)
Lemma capture_stops_at_nul :
  fgets 256 (stdout_bytes Samples.binary_output)
  = Some (stdout_bytes Samples.binary_output ++ [x00], []) /\
  option_map (fun res => (snd res, output_bytes res))
    (result_of (krowno_execute_command (Samples.popen_gives Samples.binary_output)
                  (Some "ls"%string) (Some None) (Some 0) w0))
  = Some (Some 1, Some ["a"%byte]).
Proof. split; vm_compute; reflexivity. Qed.

(** C9: a call of the write callback whose [realloc] is granted leaves a
    buffer exactly one cell longer than the new size, with a NUL in that
    cell; a call whose [realloc] is refused leaves the response as it was.
    (Sizes are taken within [size_t] range and [contents] holds the
    [size * nmemb] bytes announced.) *)
Theorem body_is_nul_terminated (contents : list byte) (sz nmemb : Z)
    (r : krowno_http_response) (w : world) :
  0 <= size r -> 0 <= sz * nmemb <= zlen contents ->
  size r + sz * nmemb + 1 <= SIZE_MAX ->
  exists n r' w',
    krowno_curl_write_callback contents sz nmemb r w = Ok (n, r') w' /\
    if next_granted w
    then n = sz * nmemb /\ size r' = size r + sz * nmemb /\ nul_terminated r'
    else n = 0 /\ r' = r.
Proof.
  intros Hsz Hn Hmax. destruct (next_granted w) eqn:Hw.
  - destruct (callback_granted contents sz nmemb r w Hw Hsz Hn Hmax)
      as (blk & Hrun & Hlen & Hnul & _).
    eexists _, _, _. split; [exact Hrun|]. split; [reflexivity|].
    split; [reflexivity|]. exists blk. cbn [data size]. auto.
  - destruct w as [[|[|] o] tr]; try discriminate.
    eexists _, _, _. split; [apply callback_refused|]. auto.
Qed.

Lemma body_is_nul_terminated_witness :
  exists n r' w',
    krowno_curl_write_callback Samples.chunk 1 5 Samples.response w0 = Ok (n, r') w' /\
    if next_granted w0
    then n = 1 * 5 /\ size r' = size Samples.response + 1 * 5 /\ nul_terminated r'
    else n = 0 /\ r' = Samples.response.
Proof.
  apply (body_is_nul_terminated Samples.chunk 1 5 Samples.response w0).
  - vm_compute. discriminate.
  - vm_compute. split; discriminate.
  - vm_compute. discriminate.
Defined.

(** * Properties of the other functions *)

(** ** [krowno_secure_zero] *)

Lemma zero_loop_clears (n : nat) : forall (blk : block) (p : Z),
  0 <= p -> p + Z.of_nat n <= zlen blk ->
  zero_loop n blk p
  = Some (take (Z.to_nat p) blk ++ replicate n (Some x00)
            ++ drop (Z.to_nat p + n) blk).
Proof.
  induction n as [|n IH]; intros blk p Hp Hfit.
  - cbn [zero_loop replicate app]. now rewrite Nat.add_0_r, take_drop.
  - cbn [zero_loop]. unfold store, zlen in *.
    destruct (Z.leb_spec 0 p); [|lia].
    destruct (Z.ltb_spec p (Z.of_nat (length blk))); [|lia]. cbn [andb].
    rewrite IH by (rewrite ?length_insert; lia).
    replace (Z.to_nat (p + 1)) with (S (Z.to_nat p)) by lia.
    rewrite (take_S_r _ _ (Some x00)) by (apply list_lookup_insert_eq; lia).
    rewrite take_insert_ge by lia. rewrite drop_insert_lt by lia.
    replace (Z.to_nat p + S n)%nat with (S (Z.to_nat p) + n)%nat by lia.
    rewrite <- app_assoc. reflexivity.
Qed.

Lemma zero_loop_overrun (n : nat) : forall (blk : block) (p : Z),
  0 <= p <= zlen blk -> zlen blk < p + Z.of_nat n -> zero_loop n blk p = None.
Proof.
  induction n as [|n IH]; intros blk p Hp Hover; [lia|].
  cbn [zero_loop]. unfold store, zlen in *.
  destruct (Z.leb_spec 0 p); [|lia].
  destruct (Z.ltb_spec p (Z.of_nat (length blk))); cbn [andb]; [|reflexivity].
  apply IH; rewrite length_insert; lia.
Qed.

(** [krowno_secure_zero] on a block of at least [len] cells sets exactly
    the first [len] cells to zero and leaves the others as they were; with
    a [len] beyond the block it writes outside it. *)
Theorem secure_zero_clears_prefix (blk : block) (len : Z) :
  0 <= len ->
  krowno_secure_zero blk len
  = if len <=? zlen blk
    then Some (replicate (Z.to_nat len) (Some x00) ++ drop (Z.to_nat len) blk)
    else None.
Proof.
  intros Hlen. unfold krowno_secure_zero. destruct (Z.leb_spec len (zlen blk)).
  - rewrite zero_loop_clears by lia. reflexivity.
  - apply zero_loop_overrun; [pose proof (zlen_nonneg blk) |]; lia.
Qed.

Lemma secure_zero_clears_prefix_witness :
  krowno_secure_zero [Some x01; None; Some xff; Some x02] 3
  = if 3 <=? zlen [Some x01; None; Some xff; Some x02]
    then Some (replicate (Z.to_nat 3) (Some x00)
                 ++ drop (Z.to_nat 3) [Some x01; None; Some xff; Some x02])
    else None.
Proof.
  apply (secure_zero_clears_prefix [Some x01; None; Some xff; Some x02] 3). lia.
Defined.

(** ** [krowno_get_username] *)

Lemma c_string_terminated u : c_string (u ++ [x00]) = c_string u.
Proof.
  induction u as [|c u IH]; [reflexivity|]. cbn [app c_string].
  destruct (Byte.eqb c x00); [reflexivity | now rewrite IH].
Qed.

Lemma c_string_no_nul s : Forall (fun b => b <> x00) (c_string s).
Proof.
  induction s as [|c s IH]; [constructor|]. cbn [c_string].
  destruct (Byte.eqb c x00) eqn:E; [constructor|].
  constructor; [|exact IH]. intros ->. cbn in E. discriminate.
Qed.

Lemma read_c_string_written (cs : list byte) (rest : block) :
  Forall (fun b => b <> x00) cs ->
  read_c_string ((Some <$> (cs ++ [x00])) ++ rest) = Some cs.
Proof.
  induction 1 as [|c cs Hc _ IH]; [reflexivity|].
  cbn [app fmap list_fmap read_c_string].
  destruct (Byte.eqb c x00) eqn:E; [apply Byte.byte_dec_bl in E; congruence|].
  cbn [fmap] in IH. now rewrite IH.
Qed.

(** Told the true size of the buffer (or less), [krowno_get_username] never
    writes outside it. The name is that of [USER] if set and of [LOGNAME]
    otherwise; when it fits with its terminator, 0 is returned, the buffer
    starts with the name and a NUL, reads back as the name, and is unchanged
    after that; when it does not fit, or neither variable is set, -1 is
    returned and the buffer is untouched. *)
Theorem get_username_copies_name (getenv : string -> option (list byte))
    (username : block) (len : Z) :
  0 <= len <= zlen username ->
  match (match getenv "USER"%string with
         | Some u => Some u
         | None => getenv "LOGNAME"%string
         end) with
  | Some u =>
    if strlen u <? len then
      exists blk,
        krowno_get_username getenv username len = Some (0, blk) /\
        blk = (Some <$> (c_string u ++ [x00]))
                ++ drop (length (c_string u) + 1) username /\
        read_c_string blk = Some (c_string u)
    else krowno_get_username getenv username len = Some (-1, username)
  | None => krowno_get_username getenv username len = Some (-1, username)
  end.
Proof.
  intros Hlen. unfold krowno_get_username.
  destruct (match getenv "USER"%string with
            | Some u => Some u
            | None => getenv "LOGNAME"%string
            end) as [u|]; [|reflexivity].
  unfold strlen. rewrite c_string_terminated.
  destruct (Z.ltb_spec (zlen (c_string u)) len) as [Hfit|Hbig];
    destruct (Z.geb_spec (zlen (c_string u)) len); try lia; [|reflexivity].
  unfold strcpy. rewrite has_nul_terminated, c_string_terminated.
  unfold memcpy, strlen. rewrite c_string_terminated.
  assert (Hsrc : zlen (c_string u ++ [x00]) = zlen (c_string u) + 1)
    by (unfold zlen; rewrite length_app; cbn [length]; lia).
  pose proof (zlen_nonneg (c_string u)) as H0.
  destruct (Z.leb_spec 0 (zlen (c_string u) + 1)); [|lia].
  destruct (Z.leb_spec (0 + (zlen (c_string u) + 1)) (zlen username)); [|lia].
  destruct (Z.leb_spec (zlen (c_string u) + 1) (zlen (c_string u ++ [x00]))); [|lia].
  change (0 <=? 0) with true. change (Z.to_nat 0) with 0%nat. cbn [andb take app].
  rewrite (take_ge (c_string u ++ [x00])) by (unfold zlen in *; lia).
  replace (Z.to_nat (0 + (zlen (c_string u) + 1))) with (length (c_string u) + 1)%nat
    by (unfold zlen; lia).
  eexists. split; [reflexivity|]. split; [reflexivity|].
  apply read_c_string_written, c_string_no_nul.
Qed.

Lemma get_username_copies_name_witness :
  let getenv := fun v : string =>
    if String.eqb v "LOGNAME" then Some (list_byte_of_string "bob") else None in
  match (match getenv "USER"%string with
         | Some u => Some u
         | None => getenv "LOGNAME"%string
         end) with
  | Some u =>
    if strlen u <? 8 then
      exists blk,
        krowno_get_username getenv (replicate 8 None) 8 = Some (0, blk) /\
        blk = (Some <$> (c_string u ++ [x00]))
                ++ drop (length (c_string u) + 1) (replicate 8 None) /\
        read_c_string blk = Some (c_string u)
    else krowno_get_username getenv (replicate 8 None) 8 = Some (-1, replicate 8 None)
  | None => krowno_get_username getenv (replicate 8 None) 8 = Some (-1, replicate 8 None)
  end.
Proof.
  intros getenv. apply (get_username_copies_name getenv (replicate 8 None) 8).
  vm_compute. split; discriminate.
Defined.

(** ** [krowno_mkdir_recursive] *)

Lemma c_string_cut (a rest : list byte) :
  Forall (fun b => b <> x00) a -> c_string (a ++ x00 :: rest) = a.
Proof.
  induction 1 as [|c a Hc _ IH]; [reflexivity|]. cbn [app c_string].
  destruct (Byte.eqb c x00) eqn:E; [apply Byte.byte_dec_bl in E; congruence|].
  now rewrite IH.
Qed.

Lemma slashes_from_none (s : list byte) (i : nat) :
  Forall (fun b => b <> x00) s -> strchr (s ++ [x00]) slash = None ->
  slashes_from i s = [].
Proof.
  intros Hs. revert i. induction Hs as [|c s Hc _ IH]; intros i; [reflexivity|].
  cbn [app strchr slashes_from]. destruct (Byte.eqb c slash); [discriminate|].
  destruct (Byte.eqb c x00) eqn:E0; [apply Byte.byte_dec_bl in E0; congruence|].
  destruct (strchr (s ++ [x00]) slash); [discriminate|]. intros _. now apply IH.
Qed.

Lemma slashes_from_first (s : list byte) (k : nat) :
  Forall (fun b => b <> x00) s -> strchr (s ++ [x00]) slash = Some k ->
  forall i, (k < length s)%nat /\ s !! k = Some slash /\
    slashes_from i s = (i + k)%nat :: slashes_from (S (i + k)) (drop (S k) s).
Proof.
  intros Hs. revert k. induction Hs as [|c s Hc _ IH]; intros k.
  - cbn. discriminate.
  - cbn [app strchr slashes_from]. destruct (Byte.eqb c slash) eqn:E.
    + intros H i. inversion H; subst. apply Byte.byte_dec_bl in E. subst c.
      cbn [length lookup drop]. rewrite Nat.add_0_r.
      split; [lia|]. split; reflexivity.
    + destruct (Byte.eqb c x00); [discriminate|].
      destruct (strchr (s ++ [x00]) slash) as [k'|] eqn:Ek; [|discriminate].
      intros H i. inversion H; subst.
      destruct (IH k' eq_refl (S i)) as (Hlt & Hlook & Hrest).
      cbn [length drop]. split; [lia|]. split; [exact Hlook|].
      rewrite Hrest. now replace (S i + k')%nat with (i + S k')%nat by lia.
Qed.

Section MkdirRuns.

Context {fs : Type}.
Variable mkdir : list byte -> Z -> fs -> mkdir_result * fs.

(** Unfolding the loop. *)
Lemma mkdir_loop_eq path_copy p mode s :
  mkdir_loop mkdir path_copy p mode s =
  match strchr (drop p path_copy) slash with
  | None => (0, path_copy, s)
  | Some k =>
    let '(r, s') := mkdir (c_string (<[(p + k)%nat := x00]> path_copy)) mode s in
    if mkdir_failed r then (-1, <[(p + k)%nat := x00]> path_copy, s')
    else mkdir_loop mkdir
           (<[(p + k)%nat := slash]> (<[(p + k)%nat := x00]> path_copy))
           (S (p + k)) mode s'
  end.
Proof.
  funelim (mkdir_loop mkdir path_copy p mode s);
    try match goal with H : strchr _ _ = _ |- _ => rewrite H end;
    cbv beta iota;
    try match goal with H : mkdir _ _ _ = _ |- _ => rewrite H end;
    cbv beta iota;
    try match goal with H : mkdir_failed _ = _ |- _ => rewrite H end;
    reflexivity.
Qed.

Lemma mkdir_each_app ts1 ts2 mode s :
  mkdir_each mkdir (ts1 ++ ts2) mode s =
  let '(r, s1) := mkdir_each mkdir ts1 mode s in
  if r =? 0 then mkdir_each mkdir ts2 mode s1 else (r, s1).
Proof.
  revert s. induction ts1 as [|t ts1 IH]; intros s.
  - cbn [app mkdir_each]. reflexivity.
  - cbn [app mkdir_each]. destruct (mkdir t mode s) as [r s'].
    destruct (mkdir_failed r); [reflexivity | apply IH].
Qed.

(** From offset [p] on, the loop makes the directories named by the
    slashes at or after [p], and leaves the buffer as it found it unless it
    gave up. *)
Lemma mkdir_loop_each (n : nat) : forall (path : list byte) (p : nat) mode s,
  Forall (fun b => b <> x00) path -> (p <= length path)%nat ->
  (length path - p <= n)%nat ->
  exists buf,
    mkdir_loop mkdir (path ++ [x00]) p mode s
    = (fst (mkdir_each mkdir ((fun j => take j path) <$> slashes_from p (drop p path))
              mode s),
       buf,
       snd (mkdir_each mkdir ((fun j => take j path) <$> slashes_from p (drop p path))
              mode s)) /\
    (fst (mkdir_each mkdir ((fun j => take j path) <$> slashes_from p (drop p path))
            mode s) = 0 -> buf = path ++ [x00]).
Proof.
  induction n as [|n IH]; intros path p mode s Hpath Hp Hn;
    rewrite mkdir_loop_eq, drop_app_le by lia;
    pose proof (Forall_drop _ p _ Hpath) as Ht;
    destruct (strchr (drop p path ++ [x00]) slash) as [k|] eqn:E.
  2,4: rewrite (slashes_from_none _ p Ht E); cbn [fmap list_fmap mkdir_each fst snd];
       eexists; split; [reflexivity | auto].
  - apply (slashes_from_first _ _ Ht) with (i := p) in E as (Hk & _ & _).
    rewrite length_drop in Hk. lia.
  - destruct (slashes_from_first _ _ Ht E p) as (Hk & Hlook & Hrest).
    rewrite length_drop in Hk. rewrite lookup_drop in Hlook.
    rewrite Hrest, drop_drop. replace (p + S k)%nat with (S (p + k)) by lia.
    cbn [fmap list_fmap mkdir_each].
    assert (Hcut : c_string (<[(p + k)%nat := x00]> (path ++ [x00])) = take (p + k) path).
    { rewrite insert_app_l by lia.
      rewrite insert_take_drop by lia. rewrite <- app_assoc. cbn [app].
      apply c_string_cut, Forall_take, Hpath. }
    rewrite Hcut. destruct (mkdir (take (p + k) path) mode s) as [r s'].
    destruct (mkdir_failed r).
    + cbn [fst snd]. eexists. split; [reflexivity|]. intros H; discriminate.
    + rewrite list_insert_insert_eq.
      rewrite (list_insert_id (path ++ [x00]))
        by (rewrite lookup_app_l by lia; exact Hlook).
      apply IH; [exact Hpath | lia | lia].
Qed.

End MkdirRuns.

Lemma slashes_from_start (path : list byte) :
  let p := match path ++ [x00] with
           | c :: _ => if Byte.eqb c slash then 1%nat else 0%nat
           | [] => 0%nat
           end in
  (p <= length path)%nat /\
  slashes_from p (drop p path) = slashes_from 1 (tail path).
Proof.
  destruct path as [|c t]; cbn [app]; [split; reflexivity|].
  destruct (Byte.eqb c slash) eqn:E; cbn [length drop tail slashes_from].
  - split; [lia | reflexivity].
  - rewrite E. split; [lia | reflexivity].
Qed.

Lemma mkdir_recursive_makes_each_prefix_eq {fs : Type}
    (mkdir : list byte -> Z -> fs -> mkdir_result * fs)
    (path : option (list byte)) (mode : Z) (s : fs) (w : world) :
  krowno_mkdir_recursive mkdir path mode s w =
  match path with
  | None => Ok (-1, s) w
  | Some str =>
    if next_granted w then
      Ok (mkdir_each mkdir (mkdir_targets (c_string str)) mode s)
         (World (tail (heap_oracle w))
                (trace w ++ [EvMalloc (strlen str + 1) true; EvFree]))
    else
      Ok (-1, s)
         (World (tail (heap_oracle w)) (trace w ++ [EvMalloc (strlen str + 1) false]))
  end.
Proof.
  destruct path as [str|]; [|reflexivity].
  pose proof (c_string_no_nul str) as Hpath.
  destruct (slashes_from_start (c_string str)) as [Hp Hstart]. cbv zeta in Hp, Hstart.
  destruct (mkdir_loop_each mkdir (length (c_string str)) (c_string str) _ mode s Hpath Hp)
    as (buf & Hloop & Hbuf); [lia|].
  rewrite Hstart in Hloop, Hbuf.
  assert (Hbody :
    (let '(ret0, path_copy', s1) :=
       mkdir_loop mkdir (c_string str ++ [x00])
         (match c_string str ++ [x00] with
          | c :: _ => if Byte.eqb c slash then 1%nat else 0%nat
          | [] => 0%nat
          end) mode s in
     let '(ret1, s2) :=
       if ret0 =? 0 then
         let '(r, s2) := mkdir (c_string path_copy') mode s1 in
         if mkdir_failed r then (-1, s2) else (ret0, s2)
       else (ret0, s1) in
     (ret1, s2, path_copy'))
    = (mkdir_each mkdir (mkdir_targets (c_string str)) mode s, buf)).
  { rewrite Hloop. unfold mkdir_targets. rewrite mkdir_each_app.
    destruct (mkdir_each mkdir
                ((fun j => take j (c_string str)) <$> slashes_from 1 (tail (c_string str)))
                mode s) as [r s1]. cbn [fst snd] in *.
    destruct (Z.eqb_spec r 0) as [->|Hr]; [|reflexivity].
    rewrite (Hbuf eq_refl).
    replace (c_string str ++ [x00]) with (c_string str ++ x00 :: []) by reflexivity.
    rewrite c_string_cut by exact Hpath. cbn [mkdir_each].
    destruct (mkdir (c_string str) mode s1) as [r2 s2].
    destruct (mkdir_failed r2); reflexivity. }
  unfold krowno_mkdir_recursive, strdup, next_granted.
  destruct w as [[|[|] o] tr]; step; cbn [hd tail]; try reflexivity.
  all: destruct (mkdir_loop mkdir (c_string str ++ [x00]) _ mode s) as [[ret0 path_copy'] s1];
    destruct (if ret0 =? 0
              then let '(r, s2) := mkdir (c_string path_copy') mode s1 in
                   if mkdir_failed r then (-1, s2) else (ret0, s2)
              else (ret0, s1)) as [ret1 s2];
    inversion Hbody; subst; cbn [trace heap_oracle]; now rewrite <- app_assoc.
Qed.

(** [krowno_mkdir_recursive] calls [mkdir] on the part of the path before
    each slash but a leading one, shortest first, and then on the path
    itself; it stops at the first failure other than [EEXIST] and returns
    -1, and returns 0 otherwise. With a NULL path, or when [strdup] fails,
    it returns -1 without calling [mkdir]. The copy of the path is freed on
    every way out. *)
Theorem mkdir_recursive_makes_each_prefix {fs : Type}
    (mkdir : list byte -> Z -> fs -> mkdir_result * fs)
    (path : option (list byte)) (mode : Z) (s : fs) (w : world) :
  krowno_mkdir_recursive mkdir path mode s w =
  match path with
  | None => Ok (-1, s) w
  | Some str =>
    if next_granted w then
      Ok (mkdir_each mkdir (mkdir_targets (c_string str)) mode s)
         (World (tail (heap_oracle w))
                (trace w ++ [EvMalloc (strlen str + 1) true; EvFree]))
    else
      Ok (-1, s)
         (World (tail (heap_oracle w)) (trace w ++ [EvMalloc (strlen str + 1) false]))
  end.
Proof. apply mkdir_recursive_makes_each_prefix_eq. Qed.






(** ** More on [krowno_execute_command] *)

Lemma WEXITSTATUS_range status : 0 <= WEXITSTATUS status <= 255.
Proof.
  unfold WEXITSTATUS. rewrite Z.shiftr_land.
  change (Z.shiftr 65280 8) with (Z.ones 8). rewrite Z.land_ones by lia.
  pose proof (Z.mod_pos_bound (Z.shiftr status 8) (2 ^ 8)). lia.
Qed.

(** Once the pipe is open, [krowno_execute_command] returns -1 exactly when
    an allocation was refused and nothing is handed back; otherwise it
    returns the exit status of the command, a number from 0 to 255, with the
    buffer and its length. *)
Theorem command_status_or_failure (popen : string -> option process)
    (cmd : string) (pipe : process) (o : outparam ptr) (ol : outparam Z) (w : world) :
  popen cmd = Some pipe ->
  2 * (zlen (stdout_bytes pipe) + 255) <= SIZE_MAX ->
  exists r w' evs,
    krowno_execute_command popen (Some cmd) o ol w = Ok r w' /\
    trace w' = trace w ++ evs /\
    (capture_success pipe o ol r evs /\ 0 <= fst (fst r) <= 255 /\
       existsb refused evs = false \/
     capture_failure o ol r evs /\ fst (fst r) = -1 /\ existsb refused evs = true).
Proof.
  intros Hp Hmax.
  destruct (execute_command_run popen cmd pipe o ol w Hp Hmax)
    as (r & w' & evs & Hrun & Ht & [Hs|Hf] & _);
    exists r, w', evs; (split; [exact Hrun|]); (split; [exact Ht|]).
  - left. split; [exact Hs|].
    destruct Hs as (text & st & evs0 & -> & _ & _ & -> & Hev). cbn [fst].
    split; [apply WEXITSTATUS_range|].
    cbn [existsb refused]. rewrite existsb_refused_app, granted_not_refused by exact Hev.
    reflexivity.
  - right. split; [exact Hf|]. destruct Hf as (-> & [->|(evs0 & n & ->)]).
    + split; reflexivity.
    + split; [reflexivity|]. cbn [existsb refused fst].
      rewrite existsb_refused_app. cbn. apply orb_true_r.
Qed.

Lemma command_status_or_failure_witness :
  exists r w' evs,
    krowno_execute_command (Samples.popen_gives Samples.text_output) (Some "ls"%string)
      (Some None) (Some 0) w0 = Ok r w' /\
    trace w' = trace w0 ++ evs /\
    (capture_success Samples.text_output (Some None) (Some 0) r evs /\
       0 <= fst (fst r) <= 255 /\ existsb refused evs = false \/
     capture_failure (Some None) (Some 0) r evs /\ fst (fst r) = -1 /\
       existsb refused evs = true).
Proof.
  apply (command_status_or_failure (Samples.popen_gives Samples.text_output)
           "ls"%string Samples.text_output (Some None) (Some 0) w0).
  - reflexivity.
  - vm_compute. discriminate.
Defined.

Lemma prefix_is_last (blk : block) (l : list byte) (c : byte) :
  prefix_is blk (l ++ [c]) -> blk !! length l = Some (Some c).
Proof.
  unfold prefix_is. intros H. apply (f_equal (fun k => k !! length l)) in H.
  rewrite lookup_take_lt in H by (rewrite length_app; cbn [length]; lia).
  rewrite H, list_lookup_fmap, lookup_app_r, Nat.sub_diag by lia. reflexivity.
Qed.

Lemma strcpy_terminated dst l src d :
  prefix_is dst l -> has_nul src = true -> zlen l + strlen src + 1 <= zlen dst ->
  strcpy dst (zlen l) src = Some d ->
  prefix_is d ((l ++ c_string src) ++ [x00]).
Proof.
  intros H Hnul Hfit. unfold strcpy. rewrite Hnul.
  destruct (memcpy_prefix dst l (c_string src ++ [x00]) (strlen src + 1) H)
    as (d' & Hd & _ & Hpre).
  - unfold strlen, zlen. rewrite length_app. cbn [length]. lia.
  - lia.
  - rewrite Hd. intros [= <-].
    rewrite take_ge in Hpre
      by (unfold strlen, zlen; rewrite length_app; cbn [length]; lia).
    now rewrite <- app_assoc.
Qed.

(** After a round of the read loop a NUL follows the bytes captured. *)
Lemma capture_append_terminated buffer st l w st' w' :
  captured st l -> has_nul buffer = true -> strlen buffer <= 255 ->
  2 * (zlen l + 255) <= SIZE_MAX ->
  capture_append buffer st w = Ok (Some st') w' -> terminated st'.
Proof.
  intros (Hlen & Hsz & Hroom & Hcap & Hpre) Hnul Hshort Hmax.
  destruct st as [res sz cap]. cbn [result result_size result_capacity] in *. subst sz.
  pose proof (zlen_nonneg l) as Hl0. pose proof (zlen_nonneg (c_string buffer)) as Hs0.
  fold (strlen buffer) in Hs0.
  assert (Hend : forall d, prefix_is d ((l ++ c_string buffer) ++ [x00]) ->
            d !! Z.to_nat (zlen l + strlen buffer) = Some (Some x00)).
  { intros d Hd. apply prefix_is_last in Hd. rewrite <- Hd. f_equal.
    unfold strlen, zlen. rewrite length_app. lia. }
  unfold capture_append, terminated. cbn [result result_size result_capacity].
  rewrite (wrap_small (zlen l + strlen buffer)) by lia.
  destruct (Z.geb_spec (zlen l + strlen buffer) cap) as [Hgrow|Hfits].
  - rewrite (wrap_small (cap * 2)) by lia.
    destruct w as [[|[|] o] tr]; step; cbn [result result_size result_capacity];
      try discriminate.
    all: destruct (strcpy (resized (Some res) (cap * 2)) (zlen l) buffer) as [d|] eqn:Ed;
      [|discriminate];
      apply strcpy_terminated in Ed;
      [ | apply prefix_is_resized; [exact Hpre | lia] | exact Hnul
        | rewrite length_resized by lia; lia ];
      rewrite (wrap_small (zlen l + strlen buffer)) by lia;
      intros [= <- <-]; cbn [result result_size]; now apply Hend.
  - unfold bind, ret. cbn [result result_size result_capacity].
    destruct (strcpy res (zlen l) buffer) as [d|] eqn:Ed; [|discriminate].
    apply strcpy_terminated in Ed; [ | exact Hpre | exact Hnul | lia].
    rewrite (wrap_small (zlen l + strlen buffer)) by lia.
    intros [= <- <-]. cbn [result result_size]. now apply Hend.
Qed.

(** A round of the read loop keeps the buffer captured and snug. *)
Lemma capture_append_snug buffer st l w st' w' :
  captured st l -> has_nul buffer = true -> strlen buffer <= 255 ->
  2 * (zlen l + 255) <= SIZE_MAX ->
  capture_append buffer st w = Ok (Some st') w' ->
  captured st' (l ++ c_string buffer) /\ (snug st -> snug st').
Proof.
  intros Hst Hnul Hshort Hmax Hrun.
  pose proof (capture_append_run buffer st l w Hst Hnul Hshort Hmax) as H.
  cbv zeta in H. destruct Hst as (_ & Hsz & _).
  assert (Happ : zlen (l ++ c_string buffer) = zlen l + strlen buffer)
    by (unfold strlen, zlen; rewrite length_app; lia).
  destruct (Z.geb_spec (result_size st + strlen buffer) (result_capacity st)) as [Hgrow|Hfits].
  - assert (H' : exists st'', capture_append buffer st w = Ok (Some st'') 
                   (World (tail (heap_oracle w))
                      (trace w ++ [EvRealloc (2 * result_capacity st) true])) /\
                 captured st'' (l ++ c_string buffer) /\
                 result_capacity st'' = 2 * result_capacity st).
    { destruct (heap_oracle w) as [|[|] o]; try exact H. congruence. }
    destruct H' as (st'' & Heq & Hst'' & Hc). rewrite Heq in Hrun.
    inversion Hrun; subst st''. split; [exact Hst''|]. intros _. right.
    destruct Hst'' as (_ & -> & _). lia.
  - destruct H as (st'' & Heq & Hst'' & Hc). rewrite Heq in Hrun.
    inversion Hrun; subst. split; [exact Hst''|].
    unfold snug. rewrite Hc. destruct Hst'' as (_ & -> & _).
    pose proof (zlen_nonneg (c_string buffer)). unfold strlen in *. lia.
Qed.

(** The read loop keeps the buffer snug, and leaves it terminated as soon
    as it read something. *)
Lemma capture_loop_keeps (k : nat) : forall pipe st l w st' w',
  (length pipe <= k)%nat -> captured st l ->
  2 * (zlen l + zlen pipe + 255) <= SIZE_MAX ->
  capture_loop pipe st w = Ok (Some st') w' ->
  (snug st -> snug st') /\ (pipe <> [] \/ terminated st -> terminated st').
Proof.
  induction k as [|k IH]; intros pipe st l w st' w' Hk Hst Hmax;
    rewrite capture_loop_eq.
  - destruct pipe; [|cbn in Hk; lia]. cbn [fgets]. intros [= <- <-].
    split; [auto | intros [?|?]; [congruence | assumption]].
  - destruct (fgets 256 pipe) as [[buffer rest]|] eqn:E.
    2:{ apply fgets_None in E. subst pipe. intros [= <- <-].
        split; [auto | intros [?|?]; [congruence | assumption]]. }
    apply fgets_Some in E as (line & -> & -> & Hline).
    pose proof (length_c_string_terminated line) as Hcs.
    unfold zlen in Hmax. rewrite length_app in Hmax.
    destruct (capture_append (line ++ [x00]) st w) as [[st1|] w1|] eqn:Ea;
      try discriminate.
    assert (Hshort : strlen (line ++ [x00]) <= 255) by (unfold strlen, zlen; lia).
    assert (Hmax1 : 2 * (zlen l + 255) <= SIZE_MAX) by (unfold zlen; lia).
    destruct (capture_append_snug _ _ _ _ _ _ Hst (has_nul_terminated line) Hshort Hmax1 Ea)
      as [Hst1 Hsnug1].
    pose proof (capture_append_terminated _ _ _ _ _ _ Hst (has_nul_terminated line)
                  Hshort Hmax1 Ea) as Hterm1.
    intros Hrun. eapply IH in Hrun; [| | exact Hst1 |].
    + destruct Hrun as [Hs Ht]. split; [auto | intros _; apply Ht; now right].
    + rewrite length_app in Hk. lia.
    + unfold zlen. rewrite length_app. lia.
Qed.

Lemma snug_initial : snug (Capture (fresh 1024) 0 1024).
Proof. left. reflexivity. Qed.

(** With every request granted, the run comes down to the read loop. *)
Lemma execute_command_granted (popen : string -> option process)
    (cmd : string) (pipe : process) (o : outparam ptr) (ol : outparam Z) (w : world) :
  popen cmd = Some pipe -> granting w = true ->
  2 * (zlen (stdout_bytes pipe) + 255) <= SIZE_MAX ->
  exists st text w1 w2,
    capture_loop (stdout_bytes pipe) (Capture (fresh 1024) 0 1024) w1 = Ok (Some st) w2 /\
    captured st text /\
    krowno_execute_command popen (Some cmd) o ol w
    = Ok (WEXITSTATUS (wait_status pipe), assign o (Some (result st)),
          assign ol (result_size st))
         (World (heap_oracle w2) (trace w2 ++ [EvPclose])).
Proof.
  intros Hp Hg Hmax. unfold krowno_execute_command. rewrite Hp. unfold bind at 1.
  destruct (malloc_granted 1024 w Hg) as (w1 & -> & _ & Hg1).
  destruct (capture_loop_run (length (stdout_bytes pipe)) (stdout_bytes pipe)
              (Capture (fresh 1024) 0 1024) [] w1)
    as (res & w2 & evs & Hloop & _ & Hres & Hg2);
    [lia | apply initial_captured | unfold zlen in *; cbn [length]; lia |].
  destruct (Hg2 Hg1) as [Hsome _]. destruct res as [st|]; [|congruence].
  destruct Hres as (text & Hst & _). exists st, text, w1, w2.
  split; [exact Hloop|]. split; [exact Hst|].
  unfold bind at 1. rewrite Hloop. reflexivity.
Qed.

(** The buffer [krowno_execute_command] hands back is larger than the
    length it reports and at most [max 1024 (2 * length)] bytes long. *)
Theorem capture_buffer_is_snug (popen : string -> option process)
    (cmd : string) (pipe : process) (o : ptr) (ol : Z) (w : world) :
  popen cmd = Some pipe -> granting w = true ->
  2 * (zlen (stdout_bytes pipe) + 255) <= SIZE_MAX ->
  exists blk n w',
    krowno_execute_command popen (Some cmd) (Some o) (Some ol) w
    = Ok (WEXITSTATUS (wait_status pipe), Some (Some blk), Some n) w' /\
    0 <= n < zlen blk /\ zlen blk <= Z.max 1024 (2 * n).
Proof.
  intros Hp Hg Hmax.
  destruct (execute_command_granted popen cmd pipe (Some o) (Some ol) w Hp Hg Hmax)
    as (st & text & w1 & w2 & Hloop & Hst & Hrun).
  eapply capture_loop_keeps in Hloop;
    [| reflexivity | apply initial_captured | unfold zlen in *; cbn [length]; lia].
  destruct Hloop as [Hsnug _]. specialize (Hsnug snug_initial).
  eexists _, _, _. split; [exact Hrun|].
  destruct Hst as (Hlen & Hsz & Hroom & _). pose proof (zlen_nonneg text).
  unfold snug in Hsnug. lia.
Qed.

Lemma capture_buffer_is_snug_witness :
  exists blk n w',
    krowno_execute_command (Samples.popen_gives Samples.long_output) (Some "ls"%string)
      (Some None) (Some 0) w0
    = Ok (WEXITSTATUS (wait_status Samples.long_output), Some (Some blk), Some n) w' /\
    0 <= n < zlen blk /\ zlen blk <= Z.max 1024 (2 * n).
Proof.
  apply (capture_buffer_is_snug (Samples.popen_gives Samples.long_output)
           "ls"%string Samples.long_output None 0 w0).
  - reflexivity.
  - reflexivity.
  - vm_compute. discriminate.
Defined.

(** When the command wrote something, the buffer handed back holds a NUL
    right after the bytes reported; when it wrote nothing, the length is 0
    and the buffer is the fresh block of 1024 bytes, none of them written:
    it is not a C string. *)
Theorem capture_is_terminated_unless_empty (popen : string -> option process)
    (cmd : string) (pipe : process) (o : ptr) (ol : Z) (w : world) :
  popen cmd = Some pipe -> granting w = true ->
  2 * (zlen (stdout_bytes pipe) + 255) <= SIZE_MAX ->
  exists blk n w',
    krowno_execute_command popen (Some cmd) (Some o) (Some ol) w
    = Ok (WEXITSTATUS (wait_status pipe), Some (Some blk), Some n) w' /\
    match stdout_bytes pipe with
    | [] => n = 0 /\ blk = fresh 1024 /\ read_c_string blk = None
    | _ :: _ => blk !! Z.to_nat n = Some (Some x00)
    end.
Proof.
  intros Hp Hg Hmax.
  destruct (execute_command_granted popen cmd pipe (Some o) (Some ol) w Hp Hg Hmax)
    as (st & text & w1 & w2 & Hloop & Hst & Hrun).
  eexists _, _, _. split; [exact Hrun|].
  destruct (stdout_bytes pipe) as [|c out] eqn:Eout.
  - rewrite capture_loop_eq in Hloop. cbn [fgets] in Hloop.
    inversion Hloop; subst. cbn [result result_size]. repeat split.
  - eapply capture_loop_keeps in Hloop;
      [| reflexivity | apply initial_captured | unfold zlen in *; cbn [length] in *; lia].
    destruct Hloop as [_ Hterm]. apply Hterm. now left.
Qed.

Lemma capture_is_terminated_unless_empty_witness :
  exists blk n w',
    krowno_execute_command (Samples.popen_gives Samples.text_output) (Some "ls"%string)
      (Some None) (Some 0) w0
    = Ok (WEXITSTATUS (wait_status Samples.text_output), Some (Some blk), Some n) w' /\
    match stdout_bytes Samples.text_output with
    | [] => n = 0 /\ blk = fresh 1024 /\ read_c_string blk = None
    | _ :: _ => blk !! Z.to_nat n = Some (Some x00)
    end.
Proof.
  apply (capture_is_terminated_unless_empty (Samples.popen_gives Samples.text_output)
           "ls"%string Samples.text_output None 0 w0).
  - reflexivity.
  - reflexivity.
  - vm_compute. discriminate.
Defined.

(** ** Blocks allocated and released *)

Lemma live_blocks_app t1 t2 : live_blocks (t1 ++ t2) = live_blocks t1 + live_blocks t2.
Proof.
  induction t1 as [|e t1 IH]; [reflexivity|].
  destruct e as [n [|]|n ok| | | |]; cbn [app live_blocks]; rewrite IH; lia.
Qed.

Lemma live_blocks_free (p : ptr) :
  live_blocks (if p is Some _ then [EvFree] else []) = - (if p is Some _ then 1 else 0).
Proof. destruct p; reflexivity. Qed.

Lemma live_blocks_granted evs : Forall granted_realloc evs -> live_blocks evs = 0.
Proof. induction 1 as [|e evs [n ->] _ IH]; [reflexivity | exact IH]. Qed.

Lemma inflate_loop_balance (zl : zlib) (n : nat) : forall src cap out o ol w,
  exists r w' evs, inflate_loop zl n src cap out o ol w = Ok r w' /\
    trace w' = trace w ++ evs /\
    live_blocks evs
    = (if fst (fst r) =? 0 then 1 else 0) - (if out is Some _ then 1 else 0).
Proof.
  induction n as [|n IH]; intros src cap out o ol w.
  - cbn [inflate_loop]. unfold bind.
    destruct (free_run out w) as (w1 & -> & Ht & _).
    eexists _, w1, _. split; [reflexivity|]. split; [exact Ht|].
    rewrite live_blocks_free. cbn [fst Z.eqb]. lia.
  - rewrite inflate_loop_S.
    destruct (free_run out w) as (w1 & -> & Ht1 & _).
    destruct (malloc_run cap w1) as (ok & w2 & -> & Ht2).
    pose proof (live_blocks_free out) as Hfr.
    destruct ok.
    2:{ eexists _, w2, _. split; [reflexivity|].
        rewrite Ht2, Ht1, <- app_assoc. split; [reflexivity|].
        rewrite live_blocks_app, Hfr. cbn. lia. }
    cbv zeta. destruct (zcode_eqb (fst (uncompress zl cap src)) Z_OK).
    + eexists _, _, _. split; [reflexivity|]. cbn [trace].
      rewrite Ht2, Ht1, <- !app_assoc. split; [reflexivity|].
      rewrite live_blocks_app, Hfr. cbn. lia.
    + match goal with |- context [inflate_loop zl n src ?c ?p o ol ?w'] =>
        destruct (IH src c p o ol w') as (r & w4 & evs & -> & Ht4 & Hlive)
      end.
      eexists r, w4, _. split; [reflexivity|]. cbn [trace] in Ht4.
      rewrite Ht4, Ht2, Ht1, <- !app_assoc. split; [reflexivity|].
      rewrite live_blocks_app, Hfr. cbn [app live_blocks]. rewrite Hlive. lia.
Qed.

Lemma krowno_inflate_balance (zl : zlib) input o ol w :
  exists r w' evs, krowno_inflate zl input o ol w = Ok r w' /\
    trace w' = trace w ++ evs /\
    live_blocks evs = (if fst (fst r) =? 0 then 1 else 0).
Proof.
  unfold krowno_inflate.
  assert (Hnone : exists r w' evs, ret (-1, o, ol) w = Ok r w' /\
            trace w' = trace w ++ evs /\
            live_blocks evs = (if fst (fst r) =? 0 then 1 else 0)).
  { eexists _, w, []. rewrite app_nil_r. repeat split. }
  destruct input as [src|], o as [o|], ol as [ol|]; try exact Hnone.
  destruct (zlen src =? 0); [exact Hnone|].
  destruct (inflate_loop_balance zl 6 src (initial_cap (zlen src)) None (Some o) (Some ol) w)
    as (r & w' & evs & Hrun & Ht & Hlive).
  exists r, w', evs. rewrite Hlive. repeat split; try assumption. lia.
Qed.

Lemma krowno_deflate_balance (zl : zlib) input o ol level w :
  exists r w' evs, krowno_deflate zl input o ol level w = Ok r w' /\
    trace w' = trace w ++ evs /\
    live_blocks evs = (if fst (fst r) =? 0 then 1 else 0).
Proof.
  unfold krowno_deflate.
  assert (Hnone : exists r w' evs, ret (-1, o, ol) w = Ok r w' /\
            trace w' = trace w ++ evs /\
            live_blocks evs = (if fst (fst r) =? 0 then 1 else 0)).
  { eexists _, w, []. rewrite app_nil_r. repeat split. }
  destruct input as [src|], o as [o|], ol as [ol|]; try exact Hnone.
  destruct (zlen src =? 0); [exact Hnone|].
  unfold bind at 1.
  destruct (malloc_run (compressBound zl (zlen src)) w) as (ok & w1 & -> & Ht1).
  destruct ok.
  2:{ eexists _, w1, _. split; [reflexivity|]. split; [exact Ht1 | reflexivity]. }
  destruct (compress2 zl (compressBound zl (zlen src)) src level) as [z written].
  step. destruct (zcode_eqb z Z_OK); eexists _, _, _; (split; [reflexivity|]);
    cbn [trace]; rewrite Ht1, <- !app_assoc; (split; [reflexivity|]); reflexivity.
Qed.

(** A call of [krowno_deflate] or [krowno_inflate] that returns 0 leaves
    exactly one of the blocks it allocated unreleased, the one it hands
    back; a call that returns -1 leaves none. *)
Theorem compression_releases_its_buffers (zl : zlib) (input : option (list byte))
    (o : outparam ptr) (ol : outparam Z) (level : Z) (w : world) :
  (exists r w' evs, krowno_deflate zl input o ol level w = Ok r w' /\
     trace w' = trace w ++ evs /\
     live_blocks evs = (if fst (fst r) =? 0 then 1 else 0)) /\
  (exists r w' evs, krowno_inflate zl input o ol w = Ok r w' /\
     trace w' = trace w ++ evs /\
     live_blocks evs = (if fst (fst r) =? 0 then 1 else 0)).
Proof.
  split; [apply krowno_deflate_balance | apply krowno_inflate_balance].
Qed.

Lemma release_after (r : Z * outparam ptr * outparam Z) (w : world) evs0 w0' :
  trace w = trace w0' ++ evs0 ->
  live_blocks evs0 = (if fst (fst r) =? 0 then 1 else 0) ->
  r = (-1, Some None, Some 0) \/ (exists blk len, r = (0, Some (Some blk), Some len)) ->
  exists w' evs,
    bind (match snd (fst r) with
          | Some p => krowno_free_buffer p
          | None => ret tt
          end) (fun _ => ret (fst (fst r))) w = Ok (fst (fst r)) w' /\
    trace w' = trace w0' ++ evs /\ live_blocks evs = 0.
Proof.
  intros Ht Hlive [->|(blk & len & ->)]; cbn [fst snd] in *; step.
  - exists w, evs0. repeat split; assumption.
  - eexists _, (evs0 ++ [EvFree]). split; [reflexivity|]. cbn [trace].
    rewrite Ht, <- app_assoc. split; [reflexivity|].
    rewrite live_blocks_app, Hlive. reflexivity.
Qed.

(** Starting from a NULL pointer, compressing or expanding and then
    passing the pointer to [krowno_free_buffer] releases every block that
    was allocated, whether the call succeeded or not. *)
Theorem release_balances_compression (zl : zlib) (input : option (list byte))
    (level : Z) (w : world) :
  (exists code w' evs, compress_and_release zl input level w = Ok code w' /\
     trace w' = trace w ++ evs /\ live_blocks evs = 0) /\
  (exists code w' evs, expand_and_release zl input w = Ok code w' /\
     trace w' = trace w ++ evs /\ live_blocks evs = 0).
Proof.
  split.
  - unfold compress_and_release. unfold bind at 1.
    destruct (krowno_deflate_balance zl input (Some None) (Some 0) level w)
      as (r & w1 & evs & Hrun & Ht & Hlive).
    destruct (krowno_deflate_shape zl input (Some None) (Some 0) level w)
      as (r' & w1' & Hrun' & Hshape).
    rewrite Hrun in Hrun'. inversion Hrun'; subst r' w1'. rewrite Hrun.
    destruct (release_after r w1 evs w Ht Hlive Hshape) as (w' & evs' & Hrel & Ht' & Hl').
    exists (fst (fst r)), w', evs'. auto.
  - unfold expand_and_release. unfold bind at 1.
    destruct (krowno_inflate_balance zl input (Some None) (Some 0) w)
      as (r & w1 & evs & Hrun & Ht & Hlive).
    destruct (krowno_inflate_shape zl input (Some None) (Some 0) w)
      as (r' & w1' & Hrun' & Hshape).
    rewrite Hrun in Hrun'. inversion Hrun'; subst r' w1'. rewrite Hrun.
    destruct (release_after r w1 evs w Ht Hlive Hshape) as (w' & evs' & Hrel & Ht' & Hl').
    exists (fst (fst r)), w', evs'. auto.
Qed.

Lemma capture_loop_balance (k : nat) : forall pipe st l w res w',
  (length pipe <= k)%nat -> captured st l ->
  2 * (zlen l + zlen pipe + 255) <= SIZE_MAX ->
  capture_loop pipe st w = Ok res w' ->
  exists evs, trace w' = trace w ++ evs /\
    live_blocks evs = (if res is Some _ then 0 else -1).
Proof.
  induction k as [|k IH]; intros pipe st l w res w' Hk Hst Hmax;
    rewrite capture_loop_eq.
  - destruct pipe; [|cbn in Hk; lia]. cbn [fgets]. intros [= <- <-].
    exists []. now rewrite app_nil_r.
  - destruct (fgets 256 pipe) as [[buffer rest]|] eqn:E.
    2:{ intros [= <- <-]. exists []. now rewrite app_nil_r. }
    apply fgets_Some in E as (line & -> & -> & Hline).
    pose proof (length_c_string_terminated line) as Hcs.
    unfold zlen in Hmax. rewrite length_app in Hmax.
    destruct (capture_append_cases (line ++ [x00]) st l w Hst)
      as [(st1 & w1 & evs1 & -> & Ht1 & Hev1 & Hst1 & _)
         |(w1 & n & -> & Ht1 & _)].
    + apply has_nul_terminated.
    + unfold strlen, zlen. lia.
    + unfold zlen. lia.
    + intros Hrun. eapply IH in Hrun; [| | exact Hst1 |].
      * destruct Hrun as (evs2 & Ht2 & Hl2). exists (evs1 ++ evs2).
        rewrite Ht2, Ht1, app_assoc. split; [reflexivity|].
        rewrite live_blocks_app, (live_blocks_granted _ Hev1). lia.
      * rewrite length_app in Hk. lia.
      * unfold zlen. rewrite length_app. lia.
    + intros [= <- <-]. exists [EvRealloc n false; EvFree]. split; [exact Ht1 | reflexivity].
Qed.

Lemma execute_command_balance (popen : string -> option process)
    (cmd : string) (pipe : process) (o : outparam ptr) (ol : outparam Z) (w : world) :
  popen cmd = Some pipe ->
  2 * (zlen (stdout_bytes pipe) + 255) <= SIZE_MAX ->
  exists r w' evs,
    krowno_execute_command popen (Some cmd) o ol w = Ok r w' /\
    trace w' = trace w ++ evs /\
    (r = (-1, o, ol) /\ live_blocks evs = 0 \/
     (exists st, r = (WEXITSTATUS (wait_status pipe), assign o (Some (result st)),
                     assign ol (result_size st))) /\ live_blocks evs = 1).
Proof.
  intros Hp Hmax. unfold krowno_execute_command. rewrite Hp. unfold bind at 1.
  destruct (malloc_run 1024 w) as (ok & w1 & -> & Ht1). destruct ok.
  2:{ step. eexists _, _, [EvMalloc 1024 false; EvPclose].
      split; [reflexivity|]. cbn [trace]. rewrite Ht1, <- app_assoc.
      split; [reflexivity|]. left. split; reflexivity. }
  unfold bind at 1.
  assert (Hb : 2 * (zlen (@nil byte) + zlen (stdout_bytes pipe) + 255) <= SIZE_MAX)
    by (unfold zlen in *; cbn [length]; lia).
  destruct (capture_loop_run (length (stdout_bytes pipe)) (stdout_bytes pipe)
              (Capture (fresh 1024) 0 1024) [] w1)
    as (res & w2 & evs & Hrun & _);
    [lia | apply initial_captured | exact Hb |].
  destruct (capture_loop_balance _ _ _ [] _ _ _ (le_n _) initial_captured Hb Hrun)
    as (evs2 & Ht2 & Hl2).
  rewrite Hrun. step. destruct res as [st|].
  - eexists _, _, (EvMalloc 1024 true :: evs2 ++ [EvPclose]).
    split; [reflexivity|]. cbn [trace]. rewrite Ht2, Ht1, <- !app_assoc.
    split; [reflexivity|]. right. split; [now exists st|].
    cbn [live_blocks]. rewrite live_blocks_app, Hl2. reflexivity.
  - eexists _, _, (EvMalloc 1024 true :: evs2 ++ [EvPclose]).
    split; [reflexivity|]. cbn [trace]. rewrite Ht2, Ht1, <- !app_assoc.
    split; [reflexivity|]. left. split; [reflexivity|].
    cbn [live_blocks]. rewrite live_blocks_app, Hl2. reflexivity.
Qed.

(** Once the pipe is open, [krowno_execute_command] leaves exactly one
    block allocated when it returns an exit status (also when [output] is
    NULL and nobody receives it) and none when it returns -1; a caller
    that starts from a NULL pointer and passes it to
    [krowno_free_command_output] afterwards ends with no block left. *)
Theorem command_output_released (popen : string -> option process)
    (cmd : string) (pipe : process) (o : outparam ptr) (ol : outparam Z) (w : world) :
  popen cmd = Some pipe ->
  2 * (zlen (stdout_bytes pipe) + 255) <= SIZE_MAX ->
  (exists r w' evs,
     krowno_execute_command popen (Some cmd) o ol w = Ok r w' /\
     trace w' = trace w ++ evs /\
     live_blocks evs = (if fst (fst r) =? -1 then 0 else 1)) /\
  (exists code w' evs,
     capture_and_release popen (Some cmd) w = Ok code w' /\
     trace w' = trace w ++ evs /\ live_blocks evs = 0).
Proof.
  intros Hp Hmax. split.
  - destruct (execute_command_balance popen cmd pipe o ol w Hp Hmax)
      as (r & w' & evs & Hrun & Ht & [[-> Hl]|[[st ->] Hl]]);
      eexists _, w', evs; (split; [exact Hrun|]); (split; [exact Ht|]); cbn [fst].
    + exact Hl.
    + pose proof (WEXITSTATUS_range (wait_status pipe)).
      destruct (Z.eqb_spec (WEXITSTATUS (wait_status pipe)) (-1)); [lia | exact Hl].
  - unfold capture_and_release. unfold bind at 1.
    destruct (execute_command_balance popen cmd pipe (Some None) (Some 0) w Hp Hmax)
      as (r & w1 & evs & -> & Ht & [[-> Hl]|[[st ->] Hl]]); cbn [fst snd assign]; step.
    + exists (-1), w1, evs. repeat split; assumption.
    + eexists _, _, (evs ++ [EvFree]). split; [reflexivity|]. cbn [trace].
      rewrite Ht, <- app_assoc. split; [reflexivity|].
      rewrite live_blocks_app, Hl. reflexivity.
Qed.

Lemma command_output_released_witness :
  (exists r w' evs,
     krowno_execute_command (Samples.popen_gives Samples.long_output) (Some "ls"%string)
       None None w0 = Ok r w' /\
     trace w' = trace w0 ++ evs /\
     live_blocks evs = (if fst (fst r) =? -1 then 0 else 1)) /\
  (exists code w' evs,
     capture_and_release (Samples.popen_gives Samples.long_output) (Some "ls"%string) w0
       = Ok code w' /\
     trace w' = trace w0 ++ evs /\ live_blocks evs = 0).
Proof.
  apply (command_output_released (Samples.popen_gives Samples.long_output)
           "ls"%string Samples.long_output None None w0).
  - reflexivity.
  - vm_compute. discriminate.
Defined.

(** ** The capacity [krowno_inflate] settles on *)

Lemma zlen_fresh n : 0 <= n -> zlen (fresh n) = n.
Proof. intros H. unfold zlen. rewrite length_fresh. lia. Qed.

Lemma inflate_loop_first_fit (zl : zlib) (k : nat) :
  forall n src decoded cap out o ol w,
  granting w = true -> expands_to zl src decoded ->
  0 < cap -> cap * 2 ^ Z.of_nat k <= SIZE_MAX ->
  zlen decoded <= cap * 2 ^ Z.of_nat k ->
  (k = 0%nat \/ cap * 2 ^ (Z.of_nat k - 1) < zlen decoded) ->
  exists blk w' evs,
    inflate_loop zl (S (k + n)) src cap out o ol w
    = Ok (0, Some (Some blk), Some (zlen decoded)) w' /\
    trace w' = trace w ++ evs /\
    attempts evs
    = ((fun c => (c, Z_BUF_ERROR)) <$> caps k cap) ++ [(cap * 2 ^ Z.of_nat k, Z_OK)] /\
    zlen blk = cap * 2 ^ Z.of_nat k /\
    block_bytes blk (zlen decoded) = Some decoded.
Proof.
  induction k as [|k IH]; intros n src decoded cap out o ol w Hg Hsrc Hcap Hmax Hfit Hlow;
    rewrite inflate_loop_S;
    destruct (free_run out w) as (w1 & -> & Ht1 & Ho1);
    (assert (Hg1 : granting w1 = true) by (unfold granting in *; now rewrite Ho1));
    destruct (malloc_granted cap w1 Hg1) as (w2 & -> & Ht2 & Hg2);
    cbv zeta; pose proof (Hsrc cap) as Hu.
  - change (2 ^ Z.of_nat 0) with 1 in *. rewrite Z.mul_1_r in *.
    destruct (Z.leb_spec (zlen decoded) cap); [|lia].
    rewrite Hu. cbn [fst snd zcode_eqb].
    assert (Hlen : (length decoded <= length (fresh cap))%nat)
      by (rewrite length_fresh; unfold zlen in *; lia).
    eexists _, _, _. split; [reflexivity|]. cbn [trace].
    rewrite Ht2, Ht1, <- !app_assoc. split; [reflexivity|].
    rewrite !attempts_app, attempts_free. split; [reflexivity|].
    split; [|now apply block_bytes_filled].
    unfold zlen at 1. rewrite length_filled by exact Hlen. apply zlen_fresh. lia.
  - destruct Hlow as [|Hlow]; [discriminate|].
    replace (Z.of_nat (S k) - 1) with (Z.of_nat k) in Hlow by lia.
    rewrite Nat2Z.inj_succ, Z.pow_succ_r in Hmax, Hfit |- * by lia.
    assert (H1 : 1 <= 2 ^ Z.of_nat k) by (apply Z.pow_le_mono_r with (b := 0); lia).
    destruct (Z.leb_spec (zlen decoded) cap); [nia|].
    rewrite Hu. cbn [zcode_eqb].
    assert (Hw : wrap (cap * 2) = cap * 2) by (apply wrap_small; nia).
    change (S k + n)%nat with (S (k + n)).
    match goal with |- context [inflate_loop zl ?m src ?c ?p o ol ?w'] =>
      destruct (IH n src decoded c p o ol w') as (blk & w4 & evs & -> & Ht4 & Ha & Hb & Hc)
    end; try assumption; rewrite ?Hw; try nia.
    { destruct k as [|k]; [now left | right].
      replace (Z.of_nat (S k) - 1) with (Z.of_nat k) by lia.
      rewrite Nat2Z.inj_succ, Z.pow_succ_r in Hlow by lia. nia. }
    exists blk, w4. eexists. split; [reflexivity|].
    cbn [trace] in Ht4. rewrite Ht4, Ht2, Ht1, <- !app_assoc.
    split; [reflexivity|].
    rewrite !attempts_app, attempts_free. cbn [app attempts caps fmap list_fmap].
    rewrite Ha, Hw in *. split; [|split; [|exact Hc]].
    + now rewrite Z.mul_assoc.
    + rewrite Hb. lia.
Qed.

(** With allocations granted, [krowno_inflate] on a well-formed stream
    stops at the first of its capacities that holds the content: every
    smaller capacity was tried once and was too short, the block handed
    back has that capacity and starts with the content, the length
    reported is the content's, and unless the first capacity fitted the
    block is less than twice as large as the content. *)
Theorem inflate_stops_at_first_fit (zl : zlib) (src decoded : list byte) (k : nat)
    (o : ptr) (ol : Z) (w : world) :
  let c0 := Z.max (4 * zlen src) 1024 in
  src <> [] -> expands_to zl src decoded -> granting w = true ->
  (k <= 5)%nat -> c0 * 2 ^ Z.of_nat k <= SIZE_MAX ->
  zlen decoded <= c0 * 2 ^ Z.of_nat k ->
  (k = 0%nat \/ c0 * 2 ^ (Z.of_nat k - 1) < zlen decoded) ->
  exists blk w' evs,
    krowno_inflate zl (Some src) (Some o) (Some ol) w
    = Ok (0, Some (Some blk), Some (zlen decoded)) w' /\
    trace w' = trace w ++ evs /\
    attempts evs
    = ((fun c => (c, Z_BUF_ERROR)) <$> caps k c0) ++ [(c0 * 2 ^ Z.of_nat k, Z_OK)] /\
    zlen blk = c0 * 2 ^ Z.of_nat k /\
    block_bytes blk (zlen decoded) = Some decoded /\
    (k <> 0%nat -> zlen blk < 2 * zlen decoded).
Proof.
  intros c0 Hne Hsrc Hg Hk Hmax Hfit Hlow.
  rewrite krowno_inflate_nonempty by exact Hne.
  pose proof (zlen_nonneg src) as H0.
  assert (H1 : 1 <= 2 ^ Z.of_nat k) by (apply Z.pow_le_mono_r with (b := 0); lia).
  rewrite initial_cap_exact by (subst c0; nia). fold c0.
  replace 6%nat with (S (k + (5 - k)))%nat by lia.
  destruct (inflate_loop_first_fit zl k (5 - k) src decoded c0 None (Some o) (Some ol) w)
    as (blk & w' & evs & Hrun & Ht & Ha & Hb & Hc); try assumption; [subst c0; lia|].
  exists blk, w', evs. repeat (split; [assumption|]).
  intros Hk0. destruct Hlow as [|Hlow]; [contradiction|]. rewrite Hb.
  replace (Z.of_nat k) with (Z.succ (Z.of_nat k - 1)) at 1 by lia.
  rewrite Z.pow_succ_r by lia. lia.
Qed.

Lemma inflate_stops_at_first_fit_witness :
  let src := [x07; xd0; x00] in
  let decoded := replicate 2000 x00 in
  exists blk w' evs,
    krowno_inflate RunLength.codec (Some src) (Some None) (Some 0) w0
    = Ok (0, Some (Some blk), Some (zlen decoded)) w' /\
    trace w' = trace w0 ++ evs /\
    attempts evs
    = ((fun c => (c, Z_BUF_ERROR)) <$> caps 1 (Z.max (4 * zlen src) 1024))
        ++ [(Z.max (4 * zlen src) 1024 * 2 ^ Z.of_nat 1, Z_OK)] /\
    zlen blk = Z.max (4 * zlen src) 1024 * 2 ^ Z.of_nat 1 /\
    block_bytes blk (zlen decoded) = Some decoded /\
    (1%nat <> 0%nat -> zlen blk < 2 * zlen decoded).
Proof.
  apply (inflate_stops_at_first_fit RunLength.codec [x07; xd0; x00]
           (replicate 2000 x00) 1 None 0 w0).
  - discriminate.
  - apply RunLengthFacts.decode_expands. vm_compute. reflexivity.
  - reflexivity.
  - lia.
  - vm_compute. discriminate.
  - vm_compute. discriminate.
  - right. vm_compute. reflexivity.
Defined.

(** ** Delivery of a response body under any allocator *)





(** ** The block [krowno_deflate] hands back *)

(** With its one allocation granted and a codec that honours its
    contract, [krowno_deflate] on a non-empty input at a supported level
    makes a single request of [compressBound] bytes and a single call of
    [compress2], and hands back a block of exactly that many cells of
    which the first [n], the length reported, hold the stream and the rest
    were never written; [n] is positive and at most the bound. *)
Theorem deflate_fills_bound_block (zl : zlib) (src : list byte) (level : Z)
    (o : ptr) (ol : Z) (w : world) :
  zlib_contract zl -> src <> [] -> supported_level level -> next_granted w = true ->
  let bound := compressBound zl (zlen src) in
  exists blk n w',
    krowno_deflate zl (Some src) (Some o) (Some ol) level w
    = Ok (0, Some (Some blk), Some n) w' /\
    trace w' = trace w ++ [EvMalloc bound true; EvCompress2 bound level Z_OK] /\
    zlen blk = bound /\ 0 < n <= bound /\
    block_bytes blk n = Some (deflated zl src level) /\
    drop (Z.to_nat n) blk = replicate (Z.to_nat (bound - n)) None.
Proof.
  intros Hzl Hne Hlevel Hg bound.
  destruct (Hzl src level Hne Hlevel) as (Hok & Hne' & Hfit & _).
  unfold deflated in *. fold bound in Hok, Hne', Hfit.
  unfold krowno_deflate. rewrite zlen_nonempty by exact Hne. fold bound.
  destruct (compress2 zl bound src level) as [z c] eqn:Ec.
  cbn [fst snd] in *. subst z.
  pose proof (zlen_nonneg c) as Hc0.
  assert (Hc1 : 0 < zlen c) by (destruct c; [congruence | unfold zlen; cbn [length]; lia]).
  assert (Hlen : (length c <= length (fresh bound))%nat)
    by (rewrite length_fresh; unfold zlen in *; lia).
  assert (Hrun : exists w',
            bind (malloc bound) (fun out =>
              match out with
              | None => ret (-1, Some o, Some ol)
              | Some blk =>
                let '(zres, written) := (Z_OK, c) in
                bind (log (EvCompress2 bound level zres)) (fun _ =>
                  if zcode_eqb zres Z_OK then
                    ret (0, Some (Some (filled blk written)), Some (zlen written))
                  else bind (free out) (fun _ => ret (-1, Some o, Some ol)))
              end) w
            = Ok (0, Some (Some (filled (fresh bound) c)), Some (zlen c)) w' /\
            trace w' = trace w ++ [EvMalloc bound true; EvCompress2 bound level Z_OK]).
  { destruct w as [[|[|] o'] tr]; try discriminate; step;
      (eexists; split; [reflexivity|]); cbn [trace]; now rewrite <- app_assoc. }
  destruct Hrun as (w' & Hrun & Ht).
  exists (filled (fresh bound) c), (zlen c), w'.
  split; [exact Hrun|]. split; [exact Ht|].
  split; [unfold zlen at 1; rewrite length_filled by exact Hlen;
          rewrite length_fresh; unfold zlen in *; lia|].
  split; [lia|]. split; [now apply block_bytes_filled|].
  unfold filled. rewrite (take_ge c) by exact Hlen.
  unfold zlen. rewrite Nat2Z.id.
  rewrite drop_app_length' by now rewrite length_fmap.
  unfold fresh. rewrite drop_replicate. f_equal. unfold zlen in *. lia.
Qed.

Lemma deflate_fills_bound_block_witness :
  let src := replicate 10 x41 in
  let bound := compressBound RunLength.codec (zlen src) in
  exists blk n w',
    krowno_deflate RunLength.codec (Some src) (Some None) (Some 0) 6 w0
    = Ok (0, Some (Some blk), Some n) w' /\
    trace w' = trace w0 ++ [EvMalloc bound true; EvCompress2 bound 6 Z_OK] /\
    zlen blk = bound /\ 0 < n <= bound /\
    block_bytes blk n = Some (deflated RunLength.codec src 6) /\
    drop (Z.to_nat n) blk = replicate (Z.to_nat (bound - n)) None.
Proof.
  apply (deflate_fills_bound_block RunLength.codec (replicate 10 x41) 6 None 0 w0).
  - apply RunLengthFacts.codec_contract.
  - discriminate.
  - unfold supported_level. lia.
  - reflexivity.
Defined.
